(** * Data-freshness core of the React Native template

    A shallow embedding of the four pieces of the repository that carry
    real invariants:

    - [CacheService] and [cacheWithRevalidation] (services/cache.ts, kept
      as src/unnamed/part_003),
    - [promisePool] (src/utils/jsUtils.ts),
    - [usePagination] (src/hooks/index.ts),
    - the [fetchProducts] reducers of the sample app (productsSlice.ts).

    JavaScript numbers that the code uses as integers (timestamps, TTLs,
    page numbers, ids, array indices) are modelled as [Z]; asynchronous
    functions are modelled as state transformers that are cut at their
    [await] points where a claim depends on what happens in between. *)

From Stdlib Require Import ZArith Lia Ascii String DecimalString.
From stdpp Require Import base option list strings gmap.

Local Open Scope Z_scope.

(* ===================================================================== *)
(** * A small JavaScript runtime: thrown values, outcomes, effects        *)
(* ===================================================================== *)

Module Js.

(** The value carried by a [throw] or a rejected promise: an object, as
    the API layer of the repository throws them ([createError]) and as
    the runtime's own errors are, whose [message] property may be
    missing (as it is on a thrown string or number); or [undefined] or
    [null], which a promise can be rejected with as well. *)
Inductive JsError : Type :=
| mkError (message : option string)
| Nullish.

(** [e.message] as a [catch] clause reads it: the property of an object
    ([Some], of a value that may be missing), or [None] when [e] is
    [undefined] or [null] and the read itself throws a [TypeError]. *)
Definition message (e : JsError) : option (option string) :=
  match e with
  | mkError m => Some m
  | Nullish => None
  end.

(** What a call (or a settled promise) produced. *)
Inductive outcome (A : Type) : Type :=
| Returned (a : A)
| Thrown (e : JsError).
Arguments Returned {A} a.
Arguments Thrown {A} e.

Definition is_thrown {A} (o : outcome A) : bool :=
  match o with Returned _ => false | Thrown _ => true end.

(** [a || b] on strings that may be [undefined]: [undefined] and the
    empty string are falsy. *)
Definition or_else (a : option string) (b : string) : string :=
  match a with
  | Some s => if decide (s = "") then b else s
  | None => b
  end.

(** Effectful code over a world [W]: a call returns or throws, and the
    effects performed before a [throw] stay performed. *)
Definition M (W A : Type) : Type := W -> outcome A * W.

Definition ret {W A} (a : A) : M W A := fun w => (Returned a, w).

Definition throw {W A} (e : JsError) : M W A := fun w => (Thrown e, w).

Definition bind {W A B} (m : M W A) (k : A -> M W B) : M W B :=
  fun w =>
    match m w with
    | (Returned a, w') => k a w'
    | (Thrown e, w') => (Thrown e, w')
    end.

(** [try { body } catch (e) { handler e }] *)
Definition try_catch {W A} (body : M W A) (handler : JsError -> M W A) : M W A :=
  fun w =>
    match body w with
    | (Returned a, w') => (Returned a, w')
    | (Thrown e, w') => handler e w'
    end.

Definition gets {W A} (f : W -> A) : M W A := fun w => (Returned (f w), w).

Definition modify {W} (f : W -> W) : M W unit := fun w => (Returned tt, f w).

(** Resume with the value of a settled promise, or rethrow its reason. *)
Definition settled {W A} (o : outcome A) : M W A := fun w => (o, w).

End Js.

Import Js.

Declare Scope js_scope.
Delimit Scope js_scope with js.
Notation "'let*' x := m 'in' k" := (bind m (fun x => k))
  (at level 10, x name, m at level 100, k at level 200, only parsing) : js_scope.
Notation "m >> k" := (bind m (fun _ => k))
  (at level 100, k at level 200, right associativity, only parsing) : js_scope.
Local Open Scope js_scope.

(* ===================================================================== *)
(** * services/cache.ts                                                   *)
(* ===================================================================== *)

Module Cache.

(** [interface CacheEntry<T>] of types/index.ts *)
Record CacheEntry (T : Type) := mkEntry
  { data : T; timestamp : Z; stale : bool }.
Arguments mkEntry {T}.
Arguments data {T}.
Arguments timestamp {T}.
Arguments stale {T}.

(** [interface CacheOptions] of types/index.ts *)
Record CacheOptions := mkOptions
  { ttl : Z; staleWhileRevalidate : bool }.

Definition DEFAULT_TTL : Z := 5 * 60 * 1000.
Definition CACHE_PREFIX : string := "@RNInterviewPrep:".

(** The part of AsyncStorage the service calls, over a backend state
    [S].  Every operation may throw and may leave the backend in any
    state. *)
Record AsyncStorageImpl (S : Type) := mkStorage
  { getItem : string -> M S (option string);
    setItem : string -> string -> M S unit;
    removeItem : string -> M S unit;
    getAllKeys : M S (list string);
    multiRemove : list string -> M S unit }.
Arguments mkStorage {S}.
Arguments getItem {S}.
Arguments setItem {S}.
Arguments removeItem {S}.
Arguments getAllKeys {S}.
Arguments multiRemove {S}.

(** [JSON.stringify] and [JSON.parse] at the entry type.  [JSON.parse]
    throws a SyntaxError on text that is not JSON and yields [None] for
    a payload that parses to a falsy value such as [null]. *)
Record JsonCodec (T : Type) := mkCodec
  { JSON_stringify : CacheEntry T -> outcome string;
    JSON_parse : string -> outcome (option (CacheEntry T)) }.
Arguments mkCodec {T}.
Arguments JSON_stringify {T}.
Arguments JSON_parse {T}.

(** A background refresh that has been started and has not settled:
    the promise [fetchFn()] with its [.then(set).catch(log)] handlers. *)
Record Refresh (T : Type) := mkRefresh
  { r_key : string; r_ttl : Z; r_promise : outcome T }.
Arguments mkRefresh {T}.
Arguments r_key {T}.
Arguments r_ttl {T}.
Arguments r_promise {T}.

(** Everything the cache module can observe or change. *)
Record World (S T : Type) := mkWorld
  { storage : S;                    (* the AsyncStorage backend          *)
    now : Z;                        (* what Date.now() returns           *)
    console : list string;          (* console.error lines, oldest first *)
    fetchCalls : nat;               (* invocations of fetchFn so far     *)
    background : list (Refresh T)   (* unsettled background refreshes    *) }.
Arguments mkWorld {S T}.
Arguments storage {S T}.
Arguments now {S T}.
Arguments console {S T}.
Arguments fetchCalls {S T}.
Arguments background {S T}.

(** The value [cacheWithRevalidation] resolves with. *)
Record Revalidated (T : Type) := mkRevalidated
  { rv_data : T; rv_isStale : bool }.
Arguments mkRevalidated {T}.
Arguments rv_data {T}.
Arguments rv_isStale {T}.

Section Service.
Context {S T : Type}.
Variable AsyncStorage : AsyncStorageImpl S.
Variable JSON : JsonCodec T.

Abbreviation World := (World S T).

(** Run a backend operation inside the world. *)
Definition onStorage {A} (op : M S A) : M World A :=
  fun w =>
    let '(r, s') := op (storage w) in
    (r, mkWorld s' (now w) (console w) (fetchCalls w) (background w)).

Definition console_error (line : string) : M World unit :=
  modify (fun w =>
    mkWorld (storage w) (now w) (console w ++ [line]) (fetchCalls w) (background w)).

Definition Date_now : M World Z := gets now.

(** [CacheService.get] *)
Definition get (key : string) : M World (option (CacheEntry T)) :=
  try_catch
    (let* cachedValue := onStorage (getItem AsyncStorage (CACHE_PREFIX +:+ key)) in
     match cachedValue with
     | None => ret None
     | Some text =>
         if decide (text = "") then ret None
         else let* entry := settled (JSON_parse JSON text) in ret entry
     end)
    (fun error => console_error "Cache get error:" >> ret None).

(** What [get] resolves with, read off the backend and the codec:
    the parsed payload, and nothing when the read throws, when
    nothing (or the empty text) is stored, or when parsing throws. *)
Definition get_result (key : string) (w : World) : option (CacheEntry T) :=
  match getItem AsyncStorage (CACHE_PREFIX +:+ key) (storage w) with
  | (Returned (Some text), _) =>
      if decide (text = "") then None
      else match JSON_parse JSON text with
           | Returned entry => entry
           | Thrown _ => None
           end
  | (Returned None, _) => None
  | (Thrown _, _) => None
  end.

(** [CacheService.set]; [ttl] is the optional third parameter. *)
Definition set (key : string) (data : T) (ttl : option Z) : M World unit :=
  try_catch
    (let* t := Date_now in
     let entry := mkEntry data t false in
     let* text := settled (JSON_stringify JSON entry) in
     onStorage (setItem AsyncStorage (CACHE_PREFIX +:+ key) text))
    (fun error => console_error "Cache set error:").

(** [CacheService.isStale]: reads the clock, changes nothing. *)
Definition isStale (entry : CacheEntry T) (ttl : option Z) (w : World) : bool :=
  now w - timestamp entry >? default DEFAULT_TTL ttl.

(** [CacheService.remove] *)
Definition remove (key : string) : M World unit :=
  try_catch
    (onStorage (removeItem AsyncStorage (CACHE_PREFIX +:+ key)))
    (fun error => console_error "Cache remove error:").

Definition startsWith (prefix s : string) : bool :=
  bool_decide (String.substring 0 (String.length prefix) s = prefix).

(** [CacheService.clear] *)
Definition clear : M World unit :=
  try_catch
    (let* keys := onStorage (getAllKeys AsyncStorage) in
     let cacheKeys := List.filter (startsWith CACHE_PREFIX) keys in
     onStorage (multiRemove AsyncStorage cacheKeys))
    (fun error => console_error "Cache clear error:").

(** [CacheService.getSize] *)
Definition getSize : M World nat :=
  try_catch
    (let* keys := onStorage (getAllKeys AsyncStorage) in
     ret (length (List.filter (startsWith CACHE_PREFIX) keys)))
    (fun error => console_error "Cache size error:" >> ret 0%nat).

(** The caller's [fetchFn]: [fetchFn n] is what the promise returned by
    its [n]-th invocation (counting from 0) settles with. *)
Definition FetchFn := nat -> outcome T.

(** [await fetchFn()] *)
Definition await_fetch (fetchFn : FetchFn) : M World T :=
  fun w =>
    (fetchFn (fetchCalls w),
     mkWorld (storage w) (now w) (console w) (Datatypes.S (fetchCalls w)) (background w)).

(** [fetchFn().then(fresh => cache.set(key, fresh, ttl)).catch(log)]
    without [await]: the call is made now, the handlers run when the
    promise settles (see [settleBackground]). *)
Definition spawn_refresh (fetchFn : FetchFn) (key : string) (ttl : Z) : M World unit :=
  modify (fun w =>
    mkWorld (storage w) (now w) (console w) (Datatypes.S (fetchCalls w))
            (background w ++ [mkRefresh key ttl (fetchFn (fetchCalls w))])).

(** [cacheWithRevalidation] *)
Definition cacheWithRevalidation
    (key : string) (fetchFn : FetchFn) (options : option CacheOptions)
  : M World (Revalidated T) :=
  let options := default (mkOptions DEFAULT_TTL true) options in
  let* cached := get key in
  match cached with
  | None =>
      let* data := await_fetch fetchFn in
      set key data (Some (ttl options)) >>
      ret (mkRevalidated data false)
  | Some cached =>
      let* isStale := gets (isStale cached (Some (ttl options))) in
      if isStale && staleWhileRevalidate options then
        let result := mkRevalidated (data cached) true in
        spawn_refresh fetchFn key (ttl options) >>
        ret result
      else if negb isStale then
        ret (mkRevalidated (data cached) false)
      else
        let* freshData := await_fetch fetchFn in
        set key freshData (Some (ttl options)) >>
        ret (mkRevalidated freshData false)
  end.

(** The [i]-th unsettled background refresh settles: its [then]
    handler writes the fresh value, its [catch] handler logs. *)
Definition settleBackground (i : nat) : M World unit :=
  fun w =>
    match background w !! i with
    | None => (Returned tt, w)
    | Some r =>
        let w' := mkWorld (storage w) (now w) (console w) (fetchCalls w)
                          (delete i (background w)) in
        try_catch
          (let* freshData := settled (r_promise r) in
           set (r_key r) freshData (Some (r_ttl r)))
          (fun err => console_error "Background revalidation failed:")
          w'
    end.

(** Time passes. *)
Definition tick (ms : Z) : M World unit :=
  modify (fun w =>
    mkWorld (storage w) (now w + ms) (console w) (fetchCalls w) (background w)).

(** Unsettled background refreshes of one key. *)
Definition inFlight (key : string) (w : World) : nat :=
  length (List.filter (fun r => bool_decide (r_key r = key)) (background w)).

End Service.

(** ** Backends and a codec to run the service on *)

(** A well-behaved AsyncStorage: an in-memory dictionary. *)
Definition memoryStorage : AsyncStorageImpl (gmap string string) :=
  mkStorage
    (fun k store => (Returned (store !! k), store))
    (fun k v store => (Returned tt, <[k := v]> store))
    (fun k store => (Returned tt, delete k store))
    (fun store => (Returned (fst <$> map_to_list store), store))
    (fun ks store => (Returned tt, foldr delete store ks)).

(** An AsyncStorage whose every operation rejects. *)
Definition failingStorage : AsyncStorageImpl unit :=
  let e := mkError (Some "storage unavailable") in
  mkStorage
    (fun _ s => (Thrown e, s))
    (fun _ _ s => (Thrown e, s))
    (fun _ s => (Thrown e, s))
    (fun s => (Thrown e, s))
    (fun _ s => (Thrown e, s)).

Definition print_Z (z : Z) : string := NilZero.string_of_int (Z.to_int z).
Definition parse_Z (s : string) : option Z := Z.of_int <$> NilZero.int_of_string s.

Definition colon : ascii := Ascii.ascii_of_nat 58.

(** Cut [s] at its first [c]. *)
Fixpoint cut (c : ascii) (s : string) : option (string * string) :=
  match s with
  | EmptyString => None
  | String a rest =>
      if Ascii.eqb a c then Some (EmptyString, rest)
      else match cut c rest with
           | Some (l, r) => Some (String a l, r)
           | None => None
           end
  end.

(** A line format standing in for JSON on entries whose data is text:
    [timestamp:stale:data]; the text [null] parses to a falsy value and
    anything else is a syntax error. *)
Definition lineCodec : JsonCodec string :=
  mkCodec
    (fun entry =>
       Returned (print_Z (timestamp entry) +:+ ":" +:+
                 (if stale entry then "true" else "false") +:+ ":" +:+
                 data entry))
    (fun text =>
       let syntaxError := Thrown (mkError (Some "SyntaxError")) in
       if decide (text = "null") then Returned None
       else match cut colon text with
            | Some (ts, rest) =>
                match parse_Z ts, cut colon rest with
                | Some t, Some (flag, d) =>
                    if decide (flag = "true") then Returned (Some (mkEntry d t true))
                    else if decide (flag = "false") then Returned (Some (mkEntry d t false))
                    else syntaxError
                | _, _ => syntaxError
                end
            | None => syntaxError
            end).

(** Callers arrive one after the other for one key, the next one
    [delay] milliseconds after the previous one, for each [delay] of
    the list; no background refresh settles in between. *)
Fixpoint revalidateEach {S T} (AsyncStorage : AsyncStorageImpl S) (JSON : JsonCodec T)
    (delays : list Z) (key : string) (fetchFn : FetchFn) (options : option CacheOptions)
    (w : World S T) : World S T :=
  match delays with
  | [] => w
  | delay :: later =>
      revalidateEach AsyncStorage JSON later key fetchFn options
        (snd (cacheWithRevalidation AsyncStorage JSON key fetchFn options
                (snd (tick delay w))))
  end.

(** ** Worlds used in the examples *)

(** An entry written at instant 0 under the key [posts], read one
    hundred seconds later. *)
Definition staleWorld : World (gmap string string) string :=
  mkWorld {[ CACHE_PREFIX +:+ "posts" := "0:false:old posts" ]} 100000 [] 0 [].

(** The same entry read one second after it was written. *)
Definition freshWorld : World (gmap string string) string :=
  mkWorld {[ CACHE_PREFIX +:+ "posts" := "0:false:old posts" ]} 1000 [] 0 [].

Definition emptyWorld : World (gmap string string) string :=
  mkWorld ∅ 5000 [] 0 [].

Definition fetchPosts : @FetchFn string := fun _ => Returned "new posts".

(** One minute of TTL, stale-while-revalidate on. *)
Definition demoOptions : CacheOptions := mkOptions 60000 true.

(** The entry stored in [staleWorld] and [freshWorld]. *)
Definition oldPosts : CacheEntry string := mkEntry "old posts" 0 false.

End Cache.

(* ===================================================================== *)
(** * utils/jsUtils.ts: promisePool                                       *)
(* ===================================================================== *)

Module PromisePool.

Local Open Scope nat_scope.

(** ** The array operations the pool uses *)

(** [arr.findIndex(p)]: the first position whose element satisfies [p],
    or -1. *)
Fixpoint findIndexFrom {A} (i : Z) (p : A -> bool) (arr : list A) : Z :=
  match arr with
  | [] => (-1)%Z
  | x :: rest => if p x then i else findIndexFrom (i + 1)%Z p rest
  end.

Definition findIndex {A} (p : A -> bool) (arr : list A) : Z :=
  findIndexFrom 0%Z p arr.

(** [arr.splice(start, 1)]: a negative [start] counts from the end, so
    [splice(-1, 1)] removes the last element. *)
Definition splice1 {A} (start : Z) (arr : list A) : list A :=
  let len := Z.of_nat (length arr) in
  let from := if (start <? 0)%Z then Z.max (len + start) 0 else Z.min start len in
  delete (Z.to_nat from) arr.

(** [arr[i] = x] on an array that may have holes: writing past the end
    extends the array and leaves holes in between. *)
Definition assign {A} (arr : list (option A)) (i : nat) (x : A) : list (option A) :=
  if decide (i < length arr) then <[i := Some x]> arr
  else arr ++ replicate (i - length arr) None ++ [Some x].

(** ** Tasks and promises on a timeline

    Instants are natural numbers.  A task function stands for
    [() => new Promise(resolve => setTimeout(() => resolve(value), duration))]:
    the promise it returns fulfils [duration] instants after the call.
    Events that fall on one instant are taken together.  A task whose
    promise rejects is outside this model: what is stated of the pool is
    stated of task lists whose promises all fulfil. *)

Record Task (T : Type) := mkTask { duration : nat; value : T }.
Arguments mkTask {T}.
Arguments duration {T}.
Arguments value {T}.

(** The [promise] of one loop iteration.  The microtask that calls
    [promiseFn()] runs as soon as the pool function yields, which is at
    the instant the iteration ran: [startedAt].  When the task's promise
    fulfils, at [settlesAt], the handler stores [result] at [index]. *)
Record Promise (T : Type) := mkPromise
  { index : nat; startedAt : nat; settlesAt : nat; result : T }.
Arguments mkPromise {T}.
Arguments index {T}.
Arguments startedAt {T}.
Arguments settlesAt {T}.
Arguments result {T}.

(** The variables of the [for] loop. *)
Record Loop (T : Type) := mkLoop
  { clock : nat;                     (* the current instant              *)
    executing : list (Promise T);    (* the [executing] array            *)
    promises : list (Promise T)      (* every promise created so far     *) }.
Arguments mkLoop {T}.
Arguments clock {T}.
Arguments executing {T}.
Arguments promises {T}.

(** What the caller gets: the instant at which the returned promise
    fulfils and the [results] array as it is at that instant. *)
Record Run (T : Type) := mkRun
  { returnedAt : nat;
    results : list (option T);
    created : list (Promise T) }.
Arguments mkRun {T}.
Arguments returnedAt {T}.
Arguments results {T}.
Arguments created {T}.

Section Pool.
Context {T : Type}.

(** [p === promise] *)
Definition same (promise p : Promise T) : bool := index p =? index promise.

(** The instant at which [await Promise.race(arr)] resumes when [arr]
    holds [promise]: the earliest settlement, or now if something in
    [arr] has settled already. *)
Definition raceResumes (now : nat) (promise : Promise T) (arr : list (Promise T)) : nat :=
  Nat.max now (foldr Nat.min (settlesAt promise) (settlesAt <$> arr)).

(** The instant at which [await Promise.all(arr)] resumes. *)
Definition allResumes (now : nat) (arr : list (Promise T)) : nat :=
  Nat.max now (foldr Nat.max 0 (settlesAt <$> arr)).

(** [Promise.resolve().then(() => promiseFn()).then(result => { results[index] = result })]
    created at the current instant. *)
Definition newPromise (l : Loop T) (i : nat) (promiseFn : Task T) : Promise T :=
  mkPromise i (clock l) (clock l + duration promiseFn) (value promiseFn).

(** One iteration of [for (const [index, promiseFn] of promiseFns.entries())]. *)
Definition iteration (concurrency : Z) (l : Loop T) (entry : nat * Task T) : Loop T :=
  let '(i, promiseFn) := entry in
  let promise := newPromise l i promiseFn in
  let pushed := executing l ++ [promise] in
  let all := promises l ++ [promise] in
  if (Z.of_nat (length pushed) >=? concurrency)%Z then
    let resumed := raceResumes (clock l) promise pushed in
    mkLoop resumed (splice1 (findIndex (same promise) pushed) pushed) all
  else
    mkLoop (clock l) pushed all.

(** The [results] array at instant [t]: the handlers of the promises
    settled by then have run (their writes commute). *)
Definition resultsAt (ps : list (Promise T)) (t : nat) : list (option T) :=
  foldl (fun arr p => if settlesAt p <=? t then assign arr (index p) (result p) else arr)
        [] ps.

(** The whole [for] loop, entered at instant 0 with both arrays empty. *)
Definition forLoop (concurrency : Z) (promiseFns : list (Task T)) : Loop T :=
  foldl (iteration concurrency) (mkLoop 0 [] [])
        (imap (fun i promiseFn => (i, promiseFn)) promiseFns).

(** [promisePool], called at instant 0. *)
Definition promisePool (promiseFns : list (Task T)) (concurrency : Z) : Run T :=
  let l := forLoop concurrency promiseFns in
  let returned := allResumes (clock l) (executing l) in
  mkRun returned (resultsAt (promises l) returned) (promises l).

(** Tasks that have been started and have not settled at instant [t]. *)
Definition unsettledAt (ps : list (Promise T)) (t : nat) : nat :=
  length (List.filter (fun p => (startedAt p <=? t) && (t <? settlesAt p)) ps).

End Pool.

(** The pool keeps at most [limit] tasks unsettled at every instant. *)
Definition respectsLimit {T} (promiseFns : list (Task T)) (limit : Z) : Prop :=
  forall t, (Z.of_nat (unsettledAt (created (promisePool promiseFns limit)) t) <= limit)%Z.

(** The returned array holds the result of task [i] at index [i]. *)
Definition inInputOrder {T} (promiseFns : list (Task T)) (limit : Z) : Prop :=
  results (promisePool promiseFns limit) = (fun task => Some (value task)) <$> promiseFns.

(** ** Task lists used in the examples *)

(** The three timers of the documented scenario. *)
Definition scenarioTasks : list (Task string) :=
  [mkTask 200 "A"; mkTask 100 "B"; mkTask 50 "C"].

(** One quick task followed by slow ones. *)
Definition quickThenSlow : list (Task string) :=
  [mkTask 1 "A"; mkTask 10 "B"; mkTask 20 "C"; mkTask 30 "D"].

Definition quickAndSlow : list (Task string) :=
  [mkTask 1 "A"; mkTask 10 "B"].

End PromisePool.

(* ===================================================================== *)
(** * hooks/index.ts: usePagination                                       *)
(* ===================================================================== *)

Module Pagination.

(** [interface PaginatedResponse<T>] of types/index.ts *)
Record PaginatedResponse (T : Type) := mkResponse
  { r_data : list T; r_page : Z; r_pageSize : Z; r_total : Z; r_hasMore : bool }.
Arguments mkResponse {T}.
Arguments r_data {T}.
Arguments r_page {T}.
Arguments r_pageSize {T}.
Arguments r_total {T}.
Arguments r_hasMore {T}.

(** One instance of the hook: its six state cells, the ref, and the
    log of the page numbers [fetchFn] has been called with. *)
Record Hook (T : Type) := mkHook
  { data : list T;
    page : Z;
    isLoading : bool;
    isRefreshing : bool;
    hasMore : bool;
    error : option string;
    isLoadingRef : bool;
    fetched : list Z }.
Arguments mkHook {T}.
Arguments data {T}.
Arguments page {T}.
Arguments isLoading {T}.
Arguments isRefreshing {T}.
Arguments hasMore {T}.
Arguments error {T}.
Arguments isLoadingRef {T}.
Arguments fetched {T}.

(** The state values a callback closed over when it was created by
    some render; they can lag behind the state cells. *)
Record Render := mkRender
  { seen_isLoading : bool; seen_hasMore : bool; seen_page : Z }.

(** A [loadPage] call suspended at [await fetchFn(pageNum)]. *)
Record Pending := mkPending { pageNum : Z; isRefresh : bool }.

Section Hook.
Context {T : Type}.

(** [useState] initial values and [useRef(false)] *)
Definition initial : Hook T := mkHook [] 1 false false true None false [].

Definition render (h : Hook T) : Render :=
  mkRender (isLoading h) (hasMore h) (page h).

(** [loadPage] from its entry to [await fetchFn(pageNum)]; [None] when
    the guard returns. *)
Definition loadPage_call (pageNum : Z) (isRefresh : bool) (h : Hook T)
  : Hook T * option Pending :=
  if isLoadingRef h then (h, None)
  else
    (mkHook (data h) (page h)
            (if isRefresh then isLoading h else true)
            (if isRefresh then true else isRefreshing h)
            (hasMore h)
            None
            true
            (fetched h ++ [pageNum]),
     Some (mkPending pageNum isRefresh)).

(** [loadPage] from the settlement of [fetchFn(pageNum)] to its end:
    the [try] body or the [catch] clause, then [finally].  When the
    rejection reason is [undefined] or [null], reading [err.message]
    throws inside the [catch] clause: [setError] is not called, [finally]
    still runs, and the promise of [loadPage], which no caller awaits,
    rejects. *)
Definition loadPage_resume (p : Pending) (settlement : outcome (PaginatedResponse T))
    (h : Hook T) : Hook T :=
  let h1 :=
    match settlement with
    | Returned response =>
        mkHook (if isRefresh p then r_data response else data h ++ r_data response)
               (pageNum p) (isLoading h) (isRefreshing h)
               (r_hasMore response) (error h) (isLoadingRef h) (fetched h)
    | Thrown err =>
        match message err with
        | Some text =>
            mkHook (data h) (page h) (isLoading h) (isRefreshing h) (hasMore h)
                   (Some (or_else text "Failed to load data"))
                   (isLoadingRef h) (fetched h)
        | None => h
        end
    end in
  mkHook (data h1) (page h1) false false (hasMore h1) (error h1) false (fetched h1).

(** The effect that runs once after the first render. *)
Definition mount (h : Hook T) : Hook T * option Pending :=
  loadPage_call 1 false h.

(** [loadMore], as created by render [r]. *)
Definition loadMore (r : Render) (h : Hook T) : Hook T * option Pending :=
  if negb (seen_isLoading r) && seen_hasMore r then
    loadPage_call (seen_page r + 1) false h
  else (h, None).

(** [refresh] *)
Definition refresh (h : Hook T) : Hook T * option Pending :=
  loadPage_call 1 true h.

(** A whole [loadPage] call when nothing else touches the hook while
    the fetch is pending. *)
Definition loadPage (pageNum : Z) (isRefresh : bool)
    (settlement : outcome (PaginatedResponse T)) (h : Hook T) : Hook T :=
  match loadPage_call pageNum isRefresh h with
  | (h1, Some p) => loadPage_resume p settlement h1
  | (h1, None) => h1
  end.

End Hook.

(** ** Pages used in the examples: items are their own identity *)

Definition pageOne : PaginatedResponse Z := mkResponse [1; 2] 1 2 4 true.
Definition pageTwo : PaginatedResponse Z := mkResponse [2; 3] 2 2 4 true.

(** The hook after the first page has arrived. *)
Definition afterPageOne : Hook Z := loadPage 1 false (Returned pageOne) initial.

End Pagination.

(* ===================================================================== *)
(** * sample/src/features/products/productsSlice.ts                       *)
(* ===================================================================== *)

Module ProductsSlice.

(** [interface ProductsState]; the reducers read nothing of a product
    but its [id], so the product type is left open. *)
Record ProductsState (Product : Type) := mkState
  { items : list Product;
    loading : bool;
    isRefreshing : bool;
    error : option string;
    page : Z;
    limit : Z;
    hasMore : bool;
    isFetchingMore : bool;
    searchQuery : string;
    selectedCategory : string;
    minPrice : Z;
    maxPrice : Z }.
Arguments mkState {Product}.
Arguments items {Product}.
Arguments loading {Product}.
Arguments isRefreshing {Product}.
Arguments error {Product}.
Arguments page {Product}.
Arguments limit {Product}.
Arguments hasMore {Product}.
Arguments isFetchingMore {Product}.
Arguments searchQuery {Product}.
Arguments selectedCategory {Product}.
Arguments minPrice {Product}.
Arguments maxPrice {Product}.

(** [action.meta.arg] of the thunk *)
Record FetchProductsArgs := mkArgs { arg_page : Z; arg_limit : Z }.

Section Reducers.
Context {Product : Type}.
Variable id : Product -> Z.


(** [fetchProducts.pending] *)
Definition pending (arg : FetchProductsArgs) (state : ProductsState Product)
  : ProductsState Product :=
  let isRefresh := (arg_page arg =? 0) && (0 <? Z.of_nat (length (items state))) in
  let '(loading', isRefreshing', isFetchingMore') :=
    if isRefresh then (loading state, true, isFetchingMore state)
    else if arg_page arg =? 0 then (true, isRefreshing state, isFetchingMore state)
    else (loading state, isRefreshing state, true) in
  mkState (items state) loading' isRefreshing' None (page state) (limit state)
          (hasMore state) isFetchingMore' (searchQuery state)
          (selectedCategory state) (minPrice state) (maxPrice state).

(** The [newItems] of the pagination branch: the incoming products
    whose id is not in the set of ids already listed. *)
Definition newItems (existing payload : list Product) : list Product :=
  let existingIds : gset Z := list_to_set (id <$> existing) in
  filter (fun item => id item ∉ existingIds) payload.

(** [fetchProducts.fulfilled] *)
Definition fulfilled (arg : FetchProductsArgs) (payload : list Product)
    (state : ProductsState Product) : ProductsState Product :=
  let isRefresh := (arg_page arg =? 0) && (0 <? Z.of_nat (length (items state))) in
  let isInitialLoad := (arg_page arg =? 0) && (Z.of_nat (length (items state)) =? 0) in
  let '(items', page') :=
    if isRefresh || isInitialLoad then (payload, 1)
    else (items state ++ newItems (items state) payload, arg_page arg + 1) in
  mkState items' false false None page' (limit state)
          (Z.of_nat (length payload) =? limit state)
          false (searchQuery state) (selectedCategory state)
          (minPrice state) (maxPrice state).

(** [fetchProducts.rejected]; [payload] is the [rejectWithValue]
    string, if any. *)
Definition rejected (payload : option string) (state : ProductsState Product)
  : ProductsState Product :=
  mkState (items state) false false
          (Some (or_else payload "Error fetching products"))
          (page state) (limit state) (hasMore state) false
          (searchQuery state) (selectedCategory state)
          (minPrice state) (maxPrice state).

End Reducers.

(** ** A product type for the examples *)

Record Item := mkItem { item_id : Z; item_title : string }.

(** The store after a first page of two products, page size 2. *)
Definition twoListed : ProductsState Item :=
  mkState [mkItem 1 "one"; mkItem 2 "two"] false false None 1 2 true false "" "" 0 10000.

End ProductsSlice.

(* ===================================================================== *)
(** * src/utils/jsUtils.ts: the other utilities                           *)
(* ===================================================================== *)

Module Retry.

(** What the promise returned by [retry] settles with.  The rejection
    reason is [lastError], which is still [undefined] ([None]) when the
    loop body never ran. *)
Inductive Settlement (T : Type) : Type :=
| Fulfilled (v : T)
| Rejected (reason : option JsError).
Arguments Fulfilled {T} v.
Arguments Rejected {T} reason.

(** The [options] argument; [maxDelay] is optional. *)
Record RetryOptions := mkRetryOptions
  { maxRetries : Z; baseDelay : Z; maxDelay : option Z }.

(** What a run did: how often [fn] was invoked and the delays it slept
    for, oldest first. *)
Record RetryLog := mkRetryLog { invocations : nat; sleeps : list Z }.

Section Retry.
Context {T : Type}.

(** [Math.min(baseDelay * Math.pow(2, attempt), maxDelay)] *)
Definition backoff (baseDelay maxDelay attempt : Z) : Z :=
  Z.min (baseDelay * 2 ^ attempt) maxDelay.

(** The delays slept after the failed attempts [a], ..., [a + n - 1]. *)
Definition schedule (baseDelay maxDelay : Z) (a n : nat) : list Z :=
  (fun i => backoff baseDelay maxDelay (Z.of_nat i)) <$> seq a n.

(** The [for] loop from [attempt] on, with [remaining] iterations to go;
    [fn n] is what the [n]-th invocation of [fn] settles with. *)
Fixpoint attempts (fn : nat -> outcome T) (maxRetries baseDelay maxDelay : Z)
    (remaining : nat) (attempt : Z) (lastError : option JsError) (log : RetryLog)
  : Settlement T * RetryLog :=
  match remaining with
  | O => (Rejected lastError, log)
  | Datatypes.S remaining' =>
      match fn (invocations log) with
      | Returned v =>
          (Fulfilled v, mkRetryLog (Datatypes.S (invocations log)) (sleeps log))
      | Thrown error =>
          let slept :=
            if attempt <? maxRetries
            then sleeps log ++ [backoff baseDelay maxDelay attempt]
            else sleeps log in
          attempts fn maxRetries baseDelay maxDelay remaining' (attempt + 1)
                   (Some error) (mkRetryLog (Datatypes.S (invocations log)) slept)
      end
  end.

(** [retry]: [attempt] runs from 0 while [attempt <= maxRetries]. *)
Definition retry (fn : nat -> outcome T) (options : RetryOptions)
  : Settlement T * RetryLog :=
  attempts fn (maxRetries options) (baseDelay options)
           (default 30000 (maxDelay options))
           (Z.to_nat (maxRetries options + 1)) 0 None (mkRetryLog 0 []).

(** [ApiService.fetchWithRetry] of services/api.ts *)
Definition fetchWithRetry (fetchFn : nat -> outcome T) (maxRetries : option Z)
  : Settlement T * RetryLog :=
  retry fetchFn (mkRetryOptions (default 3 maxRetries) 1000 None).

End Retry.

(** A fetch that fails twice and then succeeds. *)
Definition flaky : nat -> outcome string :=
  fun n => if (n <? 2)%nat then Thrown (mkError (Some "timeout")) else Returned "ok".

(** A fetch that always fails, with the attempt number in the message. *)
Definition down : nat -> outcome string :=
  fun n => Thrown (mkError (Some ("down " +:+ Cache.print_Z (Z.of_nat n)))).

End Retry.

Module Flatten.

(** An element of an array of unknown nesting: a value that is not an
    array, or an array of such elements. *)
Inductive Nested (A : Type) : Type :=
| Item (a : A)
| Arr (items : list (Nested A)).
Arguments Item {A} a.
Arguments Arr {A} items.

(** The [depth] argument: an integer or [Infinity], the default. *)
Inductive Depth : Type :=
| Finite (d : Z)
| Infinity.

Definition isZero (depth : Depth) : bool :=
  match depth with Finite d => d =? 0 | Infinity => false end.

(** [depth - 1] *)
Definition minusOne (depth : Depth) : Depth :=
  match depth with Finite d => Finite (d - 1) | Infinity => Infinity end.

Section Flatten.
Context {A : Type}.

(** What the [reduce] callback pushes for one [item] when the enclosing
    call runs at [depth]: the item itself, or the elements of
    [flatten(item, depth - 1)]. *)
Fixpoint pushed (depth : Depth) (item : Nested A) : list (Nested A) :=
  match item with
  | Item a => [Item a]
  | Arr items =>
      if isZero (minusOne depth) then items
      else List.concat (List.map (pushed (minusOne depth)) items)
  end.

(** [flatten(arr, depth)] *)
Definition flatten (arr : list (Nested A)) (depth : Depth) : list (Nested A) :=
  if isZero depth then arr
  else List.concat (List.map (pushed depth) arr).

(** The values of an array that are not arrays, left to right. *)
Fixpoint leaves (item : Nested A) : list A :=
  match item with
  | Item a => [a]
  | Arr items => List.concat (List.map leaves items)
  end.

Definition allLeaves (arr : list (Nested A)) : list A :=
  List.concat (List.map leaves arr).

Definition isItem (item : Nested A) : bool :=
  match item with Item _ => true | Arr _ => false end.

(** One level of flattening, element by element. *)
Definition unwrap (item : Nested A) : list (Nested A) :=
  match item with Item a => [Item a] | Arr items => items end.

End Flatten.

(** A depth that never counts down to 0: [Infinity], or a negative
    number. *)
Definition bottomless (depth : Depth) : Prop :=
  match depth with Finite d => d < 0 | Infinity => True end.

(** [[1, [2, [3, [4]]], 5]] *)
Definition nestedDemo : list (Nested Z) :=
  [Item 1; Arr [Item 2; Arr [Item 3; Arr [Item 4]]]; Item 5].

End Flatten.

Module GroupBy.

Section GroupBy.
Context {T : Type}.

(** The [reduce] callback, for numeric keys: the accumulator object maps
    a key to its group. *)
Definition step (keyFn : T -> Z) (acc : gmap Z (list T)) (item : T) : gmap Z (list T) :=
  let key := keyFn item in
  let acc :=
    match acc !! key with
    | None => <[key := []]> acc
    | Some _ => acc
    end in
  alter (fun group => group ++ [item]) key acc.

(** [groupBy(array, keyFn)] with [K] a number type. *)
Definition groupBy (array : list T) (keyFn : T -> Z) : gmap Z (list T) :=
  foldl (step keyFn) ∅ array.

End GroupBy.

End GroupBy.

Module Memoize.

(** The closure of one [memoize(fn)]: its [cache] map, and the arguments
    [fn] has been applied to, oldest first. *)
Record Memo (Args R : Type) := mkMemo
  { cache : gmap string R; applied : list Args }.
Arguments mkMemo {Args R}.
Arguments cache {Args R}.
Arguments applied {Args R}.

Section Memoize.
Context {Args R : Type}.
Variable JSON_stringify : Args -> outcome string.
Variable fn : Args -> outcome R.

(** [fn.apply(this, args)] *)
Definition apply_fn (args : Args) : M (Memo Args R) R :=
  fun m => (fn args, mkMemo (cache m) (applied m ++ [args])).

(** The [memoized] function. *)
Definition memoized (args : Args) : M (Memo Args R) R :=
  let* key := settled (JSON_stringify args) in
  let* hit := gets (fun m => cache m !! key) in
  match hit with
  | Some result => ret result
  | None =>
      let* result := apply_fn args in
      modify (fun m => mkMemo (<[key := result]> (cache m)) (applied m)) >>
      ret result
  end.

Definition fresh : Memo Args R := mkMemo ∅ [].

(** Every cached result was returned by [fn] for arguments with that
    key. *)
Definition cache_sound (m : Memo Args R) : Prop :=
  forall key r, cache m !! key = Some r ->
    exists a, a ∈ applied m /\ JSON_stringify a = Returned key /\ fn a = Returned r.

End Memoize.

(** A function of one flag that throws on [false], and the serialisation
    of its argument list. *)
Definition flagKey (flag : bool) : outcome string :=
  Returned (if flag then "[true]" else "[false]").

Definition flagFn (flag : bool) : outcome Z :=
  if flag then Returned 1 else Thrown (mkError (Some "unsupported")).

End Memoize.

Module Timers.

(** A relation between the instants of every two calls that follow one
    another in a list of timed calls. *)
Definition consecutive {Args : Type} (P : Z -> Z -> Prop) (calls : list (Z * Args)) : Prop :=
  forall i t a t' a',
    calls !! i = Some (t, a) -> calls !! Datatypes.S i = Some (t', a') -> P t t'.

(** ** debounce *)

(** The closure of one [debounce(func, delay)]: the timer that is set and
    has neither fired nor been cleared, with the arguments it will pass,
    and the calls of [func] made so far with their instants. *)
Record Debounced (Args : Type) := mkDebounced
  { timer : option (Z * Args); invoked : list (Z * Args) }.
Arguments mkDebounced {Args}.
Arguments timer {Args}.
Arguments invoked {Args}.

Section Debounce.
Context {Args : Type}.
Variable delay : Z.

(** Time has reached [t]: a timer that is due fires and calls [func].  A
    timer due at the very instant of a call is taken to fire before it. *)
Definition elapse (t : Z) (d : Debounced Args) : Debounced Args :=
  match timer d with
  | Some (due, args) =>
      if due <=? t then mkDebounced None (invoked d ++ [(due, args)]) else d
  | None => d
  end.

(** The debounced function is called with [args] at instant [t]: the
    timer of the previous call, if it is still set, is cleared and a new
    one is set ([setTimeout] treats a negative delay as 0). *)
Definition debounced (t : Z) (args : Args) (d : Debounced Args) : Debounced Args :=
  let d := elapse t d in
  mkDebounced (Some (t + Z.max delay 0, args)) (invoked d).

(** The calls [calls], in this order, and then time running on to [until]. *)
Definition debounceRun (calls : list (Z * Args)) (until : Z) : Debounced Args :=
  elapse until (foldl (fun d call => debounced (fst call) (snd call) d)
                      (mkDebounced None []) calls).

End Debounce.

(** ** throttle *)

(** The closure of one [throttle(func, limit)]: [inThrottle], the instant
    at which the pending timer resets it, [lastResult], and two logs:
    every application of [func] with its instant ([applied]), and those
    of them that returned ([executed]). *)
Record Throttled (Args R : Type) := mkThrottled
  { inThrottle : bool;
    releaseAt : Z;
    lastResult : option R;
    applied : list (Z * Args);
    executed : list (Z * Args) }.
Arguments mkThrottled {Args R}.
Arguments inThrottle {Args R}.
Arguments releaseAt {Args R}.
Arguments lastResult {Args R}.
Arguments applied {Args R}.
Arguments executed {Args R}.

Section Throttle.
Context {Args R : Type}.
Variable func : Args -> outcome R.
Variable limit : Z.

(** Time has reached [t]: a due timer resets [inThrottle]. *)
Definition release (t : Z) (s : Throttled Args R) : Throttled Args R :=
  if inThrottle s && (releaseAt s <=? t)
  then mkThrottled false (releaseAt s) (lastResult s) (applied s) (executed s)
  else s.

(** The throttled function is called with [args] at instant [t]; it
    returns [lastResult], which is [undefined] ([None]) before the first
    call of [func] has returned.  When [func] throws, the assignments
    after it are not reached: [inThrottle] stays [false] and no timer is
    set. *)
Definition throttled (t : Z) (args : Args) : M (Throttled Args R) (option R) :=
  fun s =>
    let s := release t s in
    if inThrottle s then (Returned (lastResult s), s)
    else
      match func args with
      | Returned r =>
          (Returned (Some r),
           mkThrottled true (t + Z.max limit 0) (Some r)
                       (applied s ++ [(t, args)]) (executed s ++ [(t, args)]))
      | Thrown e =>
          (Thrown e,
           mkThrottled (inThrottle s) (releaseAt s) (lastResult s)
                       (applied s ++ [(t, args)]) (executed s))
      end.

(** The calls [calls], in this order; a call that throws is caught by its
    caller. The result lists what each call returned. *)
Fixpoint throttleRun (calls : list (Z * Args)) (s : Throttled Args R)
  : list (outcome (option R)) * Throttled Args R :=
  match calls with
  | [] => ([], s)
  | (t, args) :: later =>
      let '(r, s1) := throttled t args s in
      let '(rs, s2) := throttleRun later s1 in
      (r :: rs, s2)
  end.

Definition idle : Throttled Args R := mkThrottled false 0 None [] [].


End Throttle.

(** A function that throws on the empty string. *)
Definition nonEmpty (text : string) : outcome string :=
  if decide (text = "") then Thrown (mkError (Some "empty")) else Returned text.

End Timers.

(* ===================================================================== *)
(** * services/api.ts (src/unnamed/part_003): the mock API                *)
(* ===================================================================== *)

Module Api.

(** [interface User] and [interface Post] of types/index.ts.  Strings
    are taken over the ASCII range, where one character is one UTF-16
    code unit, so that [String.length] is [.length]. *)
Record User := mkUser
  { u_id : string; u_name : string; u_email : string;
    u_avatar : option string; u_createdAt : string }.

Record Post := mkPost
  { p_id : string; p_userId : string; p_title : string; p_body : string;
    p_imageUrl : option string; p_likes : Z; p_comments : Z; p_createdAt : string }.

(** [interface ApiError] *)
Record ApiError := mkApiError { message : string; code : string; status : Z }.

(** [createError(message, status = 500)] *)
Definition createError (message : string) (status : option Z) : ApiError :=
  mkApiError message "API_ERROR" (default 500 status).

(** What an API promise settles with. *)
Inductive Response (A : Type) : Type :=
| Resolved (a : A)
| Rejected (e : ApiError).
Arguments Resolved {A} a.
Arguments Rejected {A} e.

(** The settlement as a caller's [catch] sees it. *)
Definition asOutcome {A} (r : Response A) : outcome A :=
  match r with
  | Resolved a => Returned a
  | Rejected e => Thrown (mkError (Some (message e)))
  end.

(** [arr.slice(start, end)]: a negative index counts from the end, an
    index past the end is the end. *)
Definition relativeIndex (len i : Z) : Z :=
  if i <? 0 then Z.max (len + i) 0 else Z.min i len.

Definition slice {A} (arr : list A) (start stop : Z) : list A :=
  let len := Z.of_nat (length arr) in
  let k := relativeIndex len start in
  let final := relativeIndex len stop in
  take (Z.to_nat (final - k)) (drop (Z.to_nat k) arr).

(** [s.includes(c)] for a one-character [c] *)
Fixpoint includes (c : ascii) (s : string) : bool :=
  match s with
  | EmptyString => false
  | String a rest => Ascii.eqb a c || includes c rest
  end.

Definition atSign : ascii := Ascii.ascii_of_nat 64.

(** What [login] resolves with. *)
Record Session := mkSession { token : string; user : option User }.

Section ApiService.
(** The generated mock data. *)
Variable USERS : list User.
Variable POSTS : list Post.

(** [ApiService.fetchPosts]; [simulateError] is what
    [shouldSimulateError(0.05)] returned. *)
Definition fetchPosts (page pageSize : option Z) (simulateError : bool)
  : Response (Pagination.PaginatedResponse Post) :=
  let page := default 1 page in
  let pageSize := default 20 pageSize in
  if simulateError then Rejected (createError "Failed to fetch posts" (Some 500))
  else
    let startIndex := (page - 1) * pageSize in
    let endIndex := startIndex + pageSize in
    let data := slice POSTS startIndex endIndex in
    Resolved (Pagination.mkResponse data page pageSize (Z.of_nat (length POSTS))
                (endIndex <? Z.of_nat (length POSTS))).

(** The [data] of page [page] when the call succeeds. *)
Definition pageOf (pageSize page : Z) : list Post :=
  match fetchPosts (Some page) (Some pageSize) false with
  | Resolved response => Pagination.r_data response
  | Rejected _ => []
  end.

(** [ApiService.fetchPostById] *)
Definition fetchPostById (id : string) : Response Post :=
  match List.find (fun p => bool_decide (p_id p = id)) POSTS with
  | Some post => Resolved post
  | None => Rejected (createError ("Post " +:+ id +:+ " not found") (Some 404))
  end.

(** [ApiService.fetchUser] *)
Definition fetchUser (userId : string) : Response User :=
  match List.find (fun u => bool_decide (u_id u = userId)) USERS with
  | Some user => Resolved user
  | None => Rejected (createError ("User " +:+ userId +:+ " not found") (Some 404))
  end.

(** [ApiService.login], called when [Date.now()] is [now]. *)
Definition login (now : Z) (email password : string) : Response Session :=
  if bool_decide (email = "") || negb (includes atSign email) then
    Rejected (createError "Invalid email format" (Some 400))
  else if Z.of_nat (String.length password) <? 6 then
    Rejected (createError "Password must be at least 6 characters" (Some 400))
  else if negb (bool_decide (password = "password123")) then
    Rejected (createError "Invalid credentials" (Some 401))
  else
    Resolved (mkSession ("mock-jwt-token-" +:+ Cache.print_Z now) (USERS !! 0%nat)).

End ApiService.

(** Forty-five posts with the ids 1 to 45. *)
Definition demoPosts : list Post :=
  (fun i => mkPost (Cache.print_Z (Z.of_nat i)) "1" "Post" "" None 0 0 "") <$> seq 1 45.

End Api.

(* ===================================================================== *)
(** * screens/PaginatedListScreen.tsx with components/OptimizedList.tsx   *)
(* ===================================================================== *)

Module PaginatedList.
Import Pagination.

Section Screen.
Variable POSTS : list Api.Post.

(** The [fetchFn] the screen gives to [usePagination]:
    [(page) => api.fetchPosts(page, 20)]. *)
Definition fetchFn (simulateError : bool) (page : Z)
  : outcome (PaginatedResponse Api.Post) :=
  Api.asOutcome (Api.fetchPosts POSTS (Some page) (Some 20) simulateError).

(** The first render and its effect, up to the settlement of the fetch. *)
Definition mounted (simulateError : bool) : Hook Api.Post :=
  match mount initial with
  | (h, Some p) => loadPage_resume p (fetchFn simulateError (pageNum p)) h
  | (h, None) => h
  end.

(** The list reaches its end after the hook has re-rendered:
    [handleEndReached] calls [onLoadMore] unless the list shows
    [isLoading] or has no more; the fetch, if any, then settles. *)
Definition endReached (simulateError : bool) (h : Hook Api.Post) : Hook Api.Post :=
  if negb (isLoading h) && hasMore h then
    match loadMore (render h) h with
    | (h1, Some p) => loadPage_resume p (fetchFn simulateError (pageNum p)) h1
    | (h1, None) => h1
    end
  else h.

(** The hook is at rest with the first [k] pages of 20 loaded. *)
Definition pagesLoaded (k : nat) (h : Hook Api.Post) : Prop :=
  h = mkHook (take (20 * k) POSTS) (Z.of_nat k) false false
             (20 * Z.of_nat k <? Z.of_nat (length POSTS)) None false
             (Z.of_nat <$> seq 1 k).

(** [n] times in a row, every fetch succeeding. *)
Fixpoint scrolled (n : nat) (h : Hook Api.Post) : Hook Api.Post :=
  match n with
  | O => h
  | Datatypes.S n' => scrolled n' (endReached false h)
  end.

End Screen.

End PaginatedList.

(* ===================================================================== *)
(** * src/hooks/index.ts: useAsync and usePrevious                        *)
(* ===================================================================== *)

Module UseAsync.

(** [type LoadingState] *)
Inductive LoadingState := idle | loading | success | error.

(** [interface AsyncState<T>] *)
Record AsyncState (T : Type) := mkAsyncState
  { data : option T; status : LoadingState; failure : option Api.ApiError }.
Arguments mkAsyncState {T}.
Arguments data {T}.
Arguments status {T}.
Arguments failure {T}.

(** The properties the [catch] clause reads from the thrown value. *)
Record Caught := mkCaught
  { c_message : option string; c_code : option string; c_status : option Z }.

(** [n || fallback] on a number that may be [undefined]. *)
Definition number_or (n : option Z) (fallback : Z) : Z :=
  match n with
  | Some v => if v =? 0 then fallback else v
  | None => fallback
  end.

Inductive Settled (T : Type) : Type :=
| Resolved (value : T)
| Failed (thrown : Caught).
Arguments Resolved {T} value.
Arguments Failed {T} thrown.

(** What happens to one instance of the hook. *)
Inductive Event (T : Type) : Type :=
| Execute                     (* [execute()] runs up to [await asyncFn()] *)
| Settle (s : Settled T).     (* a pending [asyncFn()] settles            *)
Arguments Execute {T}.
Arguments Settle {T} s.

Section Hook.
Context {T : Type}.

Definition initial : AsyncState T := mkAsyncState None idle None.

(** [setState(prev => ({ ...prev, status: 'loading', error: null }))] *)
Definition execute_call (st : AsyncState T) : AsyncState T :=
  mkAsyncState (data st) loading None.

(** The rest of [execute] once [asyncFn()] has settled. *)
Definition execute_resume (s : Settled T) (st : AsyncState T) : AsyncState T :=
  match s with
  | Resolved value => mkAsyncState (Some value) success None
  | Failed thrown =>
      mkAsyncState None error
        (Some (Api.mkApiError
                 (or_else (c_message thrown) "An error occurred")
                 (or_else (c_code thrown) "UNKNOWN_ERROR")
                 (number_or (c_status thrown) 500)))
  end.

Definition step (st : AsyncState T) (e : Event T) : AsyncState T :=
  match e with
  | Execute => execute_call st
  | Settle s => execute_resume s st
  end.

Definition run (events : list (Event T)) : AsyncState T :=
  foldl step initial events.

End Hook.

End UseAsync.

Module UsePrevious.

(** One instance of the hook: [ref.current], and the [value] of the
    last render whose effect was considered ([None] before the first). *)
Record Instance (T : Type) := mkInstance
  { current : option T; lastValue : option T }.
Arguments mkInstance {T}.
Arguments current {T}.
Arguments lastValue {T}.

Section Hook.
Context {T : Type} `{EqDecision T}.

(** One render with [value]: the hook returns [ref.current]; after the
    commit the effect runs if this is the first render or [value] is not
    the one of the previous render. *)
Definition render (value : T) (i : Instance T) : option T * Instance T :=
  (current i,
   if decide (lastValue i = Some value) then i
   else mkInstance (Some value) (Some value)).

(** The values returned over a series of renders. *)
Fixpoint renders (values : list T) (i : Instance T) : list (option T) :=
  match values with
  | [] => []
  | value :: later =>
      let '(returned, i') := render value i in
      returned :: renders later i'
  end.

Definition unmounted : Instance T := mkInstance None None.

End Hook.

End UsePrevious.

(* ===================================================================== *)
(** * sample: utils/storage.ts, productsThunk.ts, productsListScreen.tsx  *)
(* ===================================================================== *)

Module ProductsThunk.
Import Cache ProductsSlice.

(** [JSON.stringify] and [JSON.parse] at the type of a product list;
    [JSON_parseList] yields [None] for a payload that parses to [null]. *)
Record ListCodec (Product : Type) := mkListCodec
  { JSON_stringifyList : list Product -> outcome string;
    JSON_parseList : string -> outcome (option (list Product)) }.
Arguments mkListCodec {Product}.
Arguments JSON_stringifyList {Product}.
Arguments JSON_parseList {Product}.

(** The backend and the [console.warn] lines. *)
Record Device (S : Type) := mkDevice { disk : S; warnings : list string }.
Arguments mkDevice {S}.
Arguments disk {S}.
Arguments warnings {S}.

(** What the thunk's payload creator ends with. *)
Inductive ThunkResult (Product : Type) : Type :=
| Payload (products : list Product)
| RejectWithValue (value : string).
Arguments Payload {Product} products.
Arguments RejectWithValue {Product} value.

Section Thunk.
Context {S Product : Type}.
Variable AsyncStorage : AsyncStorageImpl S.
Variable JSON : ListCodec Product.
(** [STORAGE_KEYS.PRODUCTS] *)
Variable PRODUCTS : string.

Definition onDisk {A} (op : M S A) : M (Device S) A :=
  fun d => let '(r, s') := op (disk d) in (r, mkDevice s' (warnings d)).

Definition console_warn (line : string) : M (Device S) unit :=
  modify (fun d => mkDevice (disk d) (warnings d ++ [line])).

(** [saveToStorage] *)
Definition saveToStorage (key : string) (value : list Product) : M (Device S) unit :=
  try_catch
    (let* text := settled (JSON_stringifyList JSON value) in
     onDisk (setItem AsyncStorage key text))
    (fun e => console_warn "Storage save failed").

(** [loadFromStorage] *)
Definition loadFromStorage (key : string) : M (Device S) (option (list Product)) :=
  try_catch
    (let* data := onDisk (getItem AsyncStorage key) in
     match data with
     | None => ret None
     | Some text =>
         if decide (text = "") then ret None
         else settled (JSON_parseList JSON text)
     end)
    (fun e => console_warn "Storage load failed" >> ret None).

(** The payload creator of [fetchProducts]: [request] is what
    [axiosInstance.get] settles with and [aborted] is [signal.aborted]
    as the [catch] clause reads it. *)
Definition fetchProducts (arg : FetchProductsArgs)
    (request : outcome (list Product)) (aborted : bool)
  : M (Device S) (ThunkResult Product) :=
  try_catch
    (let* data := settled request in
     (if arg_page arg =? 0 then saveToStorage PRODUCTS data else ret tt) >>
     ret (Payload data))
    (fun _ =>
       if aborted then ret (RejectWithValue "Request cancelled")
       else
         let* fallback :=
           (if arg_page arg =? 0 then
              let* cached := loadFromStorage PRODUCTS in
              match cached with
              | Some products => ret (Some (Payload products))
              | None => ret None
              end
            else ret None) in
         match fallback with
         | Some result => ret result
         | None => ret (RejectWithValue "Failed to fetch products")
         end).

(** [skip] of the request: [page * limit]. *)
Definition skip (arg : FetchProductsArgs) : Z := arg_page arg * arg_limit arg.

Variable id : Product -> Z.

(** The store after the thunk's [pending] action and the action that
    settles the thunk.  [aborted] says that [thunk.abort()] was called
    while the payload creator was running (which is when [signal.aborted]
    reads true in its [catch] clause): [createAsyncThunk] then dispatches
    a [rejected] action of its own, which carries no payload, and what
    the payload creator returns afterwards is not dispatched. *)
Definition dispatched (arg : FetchProductsArgs) (aborted : bool)
    (result : ThunkResult Product) (state : ProductsState Product)
  : ProductsState Product :=
  if aborted then rejected None (pending arg state)
  else
    match result with
    | Payload products => fulfilled id arg products (pending arg state)
    | RejectWithValue value => rejected (Some value) (pending arg state)
    end.

(** [loadMore] of the list screen: the arguments it dispatches, if any. *)
Definition screenLoadMore (isOffline : bool) (state : ProductsState Product)
  : option FetchProductsArgs :=
  if isOffline || loading state || isFetchingMore state || negb (hasMore state)
  then None
  else Some (mkArgs (page state) (limit state)).

End Thunk.

(** ** A codec to run the thunk on *)

Definition semicolon : ascii := Ascii.ascii_of_nat 59.

(** A line format standing in for JSON on product lists: [id:title;]
    for each product, closed by a bracket. *)
Fixpoint printItems (products : list Item) : string :=
  match products with
  | [] => "]"
  | product :: later =>
      print_Z (item_id product) +:+ ":" +:+ item_title product +:+ ";" +:+ printItems later
  end.

Fixpoint parseItems (fuel : nat) (text : string) : option (list Item) :=
  if decide (text = "]") then Some []
  else
    match fuel with
    | O => None
    | Datatypes.S fuel' =>
        match cut semicolon text with
        | Some (line, rest) =>
            match cut colon line with
            | Some (i, title) =>
                match parse_Z i, parseItems fuel' rest with
                | Some z, Some later => Some (mkItem z title :: later)
                | _, _ => None
                end
            | None => None
            end
        | None => None
        end
    end.

Definition itemsCodec : ListCodec Item :=
  mkListCodec
    (fun products => Returned (printItems products))
    (fun text =>
       if decide (text = "null") then Returned None
       else match parseItems (String.length text) text with
            | Some products => Returned (Some products)
            | None => Thrown (mkError (Some "SyntaxError"))
            end).

(** A device with nothing stored. *)
Definition blankDevice : Device (gmap string string) := mkDevice ∅ [].


End ProductsThunk.
(* ===================================================================== *)
(** * Properties of the cache service                                     *)
(* ===================================================================== *)

Ltac run_js :=
  unfold Cache.get, Cache.set, Cache.remove, Cache.clear, Cache.onStorage,
    Cache.console_error, Cache.Date_now, Cache.await_fetch, Cache.spawn_refresh,
    Cache.tick, try_catch, bind, ret, settled, gets, modify; simpl.

Section CacheFacts.
Import Cache.
Context {S T : Type}.
Variable AsyncStorage : AsyncStorageImpl S.
Variable JSON : JsonCodec T.

Lemma get_returns key (w : World S T) :
  fst (get AsyncStorage JSON key w) = Returned (get_result AsyncStorage JSON key w).
Proof.
  unfold get_result. run_js.
  destruct (getItem AsyncStorage _ (storage w)) as [[[text|]|e] s']; simpl; try reflexivity.
  destruct (decide (text = "")); simpl; [reflexivity|].
  destruct (JSON_parse JSON text); reflexivity.
Qed.

(** [get] touches the backend and the console only. *)
Lemma get_frame key (w : World S T) :
  let w' := snd (get AsyncStorage JSON key w) in
  now w' = now w /\ fetchCalls w' = fetchCalls w /\ background w' = background w.
Proof.
  run_js.
  destruct (getItem AsyncStorage _ (storage w)) as [[[text|]|e] s']; simpl; auto.
  destruct (decide (text = "")); simpl; auto.
  destruct (JSON_parse JSON text); simpl; auto.
Qed.

Lemma set_returns key d ttl (w : World S T) :
  fst (set AsyncStorage JSON key d ttl w) = Returned tt.
Proof.
  run_js.
  destruct (JSON_stringify JSON _) as [text|e]; simpl; [|reflexivity].
  destruct (setItem AsyncStorage _ text (storage w)) as [[[]|e] s']; reflexivity.
Qed.

Lemma remove_returns key (w : World S T) :
  fst (remove AsyncStorage key w) = Returned tt.
Proof.
  run_js. destruct (removeItem AsyncStorage _ (storage w)) as [[[]|e] s']; reflexivity.
Qed.

Lemma clear_returns (w : World S T) :
  fst (clear AsyncStorage w) = Returned tt.
Proof.
  run_js. destruct (getAllKeys AsyncStorage (storage w)) as [[keys|e] s']; simpl; [|reflexivity].
  destruct (multiRemove AsyncStorage _ s') as [[[]|e] s'']; reflexivity.
Qed.

(** Staleness is a function of the clock, the entry and the TTL. *)
Lemma isStale_clock (e : CacheEntry T) ttl (w w' : World S T) :
  now w' = now w -> isStale e ttl w' = isStale e ttl w.
Proof. unfold isStale. intros ->. reflexivity. Qed.

(** The coordinator on a cached entry that is stale, with
    stale-while-revalidate on: the stale data is returned and one
    refresh is started, whatever is in flight already. *)
Lemma stale_call_spawns key fetchFn options (w : World S T) E :
  let o := default (mkOptions DEFAULT_TTL true) options in
  get_result AsyncStorage JSON key w = Some E ->
  isStale E (Some (ttl o)) w = true ->
  staleWhileRevalidate o = true ->
  cacheWithRevalidation AsyncStorage JSON key fetchFn options w =
    (Returned (mkRevalidated (data E) true),
     let w1 := snd (get AsyncStorage JSON key w) in
     mkWorld (storage w1) (now w1) (console w1) (Datatypes.S (fetchCalls w1))
             (background w1 ++ [mkRefresh key (ttl o) (fetchFn (fetchCalls w1))])).
Proof.
  intros o HE Hstale Hswr. unfold cacheWithRevalidation. fold o.
  unfold bind at 1.
  pose proof (get_returns key w) as Hget. pose proof (get_frame key w) as (Hnow & _ & _).
  destruct (get AsyncStorage JSON key w) as [r w1]. simpl in *. subst r. rewrite HE.
  unfold bind at 1, gets. rewrite (isStale_clock _ _ _ _ Hnow), Hstale, Hswr. simpl.
  reflexivity.
Qed.

(** C6. Whatever the backend and the codec do (return, return text that
    does not parse, throw), [get], [set], [remove] and [clear] return
    normally: [get] resolves with the parsed entry, and with no entry
    when the read throws, nothing is stored, or the payload does not
    parse; [set], [remove] and [clear] resolve with nothing to report. *)
Theorem cache_never_throws key d ttl (w : World S T) :
  fst (get AsyncStorage JSON key w) = Returned (get_result AsyncStorage JSON key w) /\
  fst (set AsyncStorage JSON key d ttl w) = Returned tt /\
  fst (remove AsyncStorage key w) = Returned tt /\
  fst (clear AsyncStorage w) = Returned tt /\
  is_thrown (fst (get AsyncStorage JSON key w)) = false /\
  is_thrown (fst (set AsyncStorage JSON key d ttl w)) = false /\
  is_thrown (fst (remove AsyncStorage key w)) = false /\
  is_thrown (fst (clear AsyncStorage w)) = false.
Proof.
  rewrite get_returns, set_returns, remove_returns, clear_returns.
  repeat split; reflexivity.
Qed.

(** C7. When the entry cached for the key is not stale under the TTL of
    the options, [cacheWithRevalidation] resolves with the entry's data
    and [isStale: false], and [fetchFn] is not invoked, neither awaited
    nor in the background, whatever [staleWhileRevalidate] is. *)
Theorem fresh_entry_served_without_fetch key fetchFn options (w : World S T) E :
  let o := default (mkOptions DEFAULT_TTL true) options in
  get_result AsyncStorage JSON key w = Some E ->
  isStale E (Some (ttl o)) w = false ->
  let run := cacheWithRevalidation AsyncStorage JSON key fetchFn options w in
  fst run = Returned (mkRevalidated (data E) false) /\
  snd run = snd (get AsyncStorage JSON key w) /\
  fetchCalls (snd run) = fetchCalls w /\
  background (snd run) = background w.
Proof.
  intros o HE Hfresh run.
  assert (Hrun : run = (Returned (mkRevalidated (data E) false),
                        snd (get AsyncStorage JSON key w))).
  { subst run. unfold cacheWithRevalidation. fold o. unfold bind at 1.
    pose proof (get_returns key w) as Hget.
    pose proof (get_frame key w) as (Hnow & _ & _).
    destruct (get AsyncStorage JSON key w) as [r w1]. simpl in *. subst r. rewrite HE.
    unfold bind at 1, gets. rewrite (isStale_clock _ _ _ _ Hnow), Hfresh. reflexivity. }
  rewrite Hrun. simpl.
  pose proof (get_frame key w) as (_ & Hcalls & Hbg). auto.
Qed.

(** C10. [set] never looks at its [ttl] argument: two calls that differ
    only in the TTL return the same and leave the same world, so no
    later read, staleness check or revalidation can tell them apart;
    what is written is the serialised entry made of the data, the
    current clock value and [stale: false]. *)
Theorem set_ignores_ttl key d (t1 t2 : option Z) (w : World S T) :
  set AsyncStorage JSON key d t1 w = set AsyncStorage JSON key d t2 w /\
  (forall text,
      JSON_stringify JSON (mkEntry d (now w) false) = Returned text ->
      storage (snd (set AsyncStorage JSON key d t1 w)) =
      snd (setItem AsyncStorage (CACHE_PREFIX +:+ key) text (storage w))) /\
  (forall key' fetchFn options,
      cacheWithRevalidation AsyncStorage JSON key' fetchFn options
        (snd (set AsyncStorage JSON key d t1 w)) =
      cacheWithRevalidation AsyncStorage JSON key' fetchFn options
        (snd (set AsyncStorage JSON key d t2 w))).
Proof.
  split; [reflexivity|]. split; [|reflexivity].
  intros text Htext. run_js. rewrite Htext. simpl.
  destruct (setItem AsyncStorage _ text (storage w)) as [[[]|e] s']; reflexivity.
Qed.

End CacheFacts.

Section MemoryCacheFacts.
Import Cache.
Context {T : Type}.
Variable JSON : JsonCodec T.

Abbreviation MemWorld := (World (gmap string string) T).

(** On the in-memory backend a read of a well-formed payload changes
    nothing. *)
Lemma get_memory key (w : MemWorld) text r :
  storage w !! (CACHE_PREFIX +:+ key) = Some text ->
  text <> "" ->
  JSON_parse JSON text = Returned r ->
  get memoryStorage JSON key w = (Returned r, w).
Proof.
  intros Hlook Hne Hparse. run_js. rewrite Hlook.
  destruct (decide (text = "")) as [|_]; [contradiction|].
  simpl. rewrite Hparse. destruct w; reflexivity.
Qed.

Lemma get_result_memory key (w : MemWorld) text r :
  storage w !! (CACHE_PREFIX +:+ key) = Some text ->
  text <> "" ->
  JSON_parse JSON text = Returned r ->
  get_result memoryStorage JSON key w = r.
Proof.
  intros Hlook Hne Hparse. unfold get_result. simpl. rewrite Hlook.
  destruct (decide (text = "")) as [|_]; [contradiction|].
  rewrite Hparse. reflexivity.
Qed.

Lemma inFlight_push key ttl (p : outcome T) (w : MemWorld) (st : gmap string string) n c calls :
  inFlight key (mkWorld st n c calls (background w ++ [mkRefresh key ttl p])) =
  Datatypes.S (inFlight key w).
Proof.
  unfold inFlight. simpl. rewrite List.filter_app, length_app. simpl.
  rewrite bool_decide_eq_true_2 by reflexivity. simpl. lia.
Qed.

(** C1, as the code has it. There is no in-flight registry: every call
    that finds a stale entry with stale-while-revalidate on returns the
    stale data and invokes [fetchFn] once more, also while earlier
    refreshes for the key are unsettled. So callers arriving one after
    the other, at any later instants, before anything settles cause one
    invocation each, and as many refreshes for the key are in flight. *)
Theorem every_stale_call_fetches (delays : list Z) key fetchFn opts (w : MemWorld) text E :
  storage w !! (CACHE_PREFIX +:+ key) = Some text ->
  text <> "" ->
  JSON_parse JSON text = Returned (Some E) ->
  isStale E (Some (ttl opts)) w = true ->
  staleWhileRevalidate opts = true ->
  Forall (fun delay => 0 <= delay) delays ->
  let w' := revalidateEach memoryStorage JSON delays key fetchFn (Some opts) w in
  fetchCalls w' = (fetchCalls w + length delays)%nat /\
  inFlight key w' = (inFlight key w + length delays)%nat /\
  storage w' = storage w /\
  forall later, 0 <= later ->
    fst (cacheWithRevalidation memoryStorage JSON key fetchFn (Some opts)
           (snd (tick later w'))) = Returned (mkRevalidated (data E) true).
Proof.
  intros Hlook Hne Hparse Hstale Hswr Hdelays.
  revert w Hlook Hstale. induction Hdelays as [|delay later0 Hdelay _ IH]; intros w Hlook Hstale;
    cbn [revalidateEach length].
  - repeat split; try lia.
    intros later Hlater.
    rewrite (stale_call_spawns memoryStorage JSON key fetchFn (Some opts) _ E); simpl; auto.
    + apply (get_result_memory key _ text); auto.
    + unfold isStale in *. simpl in *. lia.
  - set (w1 := snd (tick delay w)).
    assert (Hlook1 : storage w1 !! (CACHE_PREFIX +:+ key) = Some text) by exact Hlook.
    assert (Hstale1 : isStale E (Some (ttl opts)) w1 = true).
    { unfold isStale in *. simpl in *. lia. }
    rewrite (stale_call_spawns memoryStorage JSON key fetchFn (Some opts) w1 E); simpl; auto.
    2: { apply (get_result_memory key _ text); auto. }
    rewrite (get_memory key w1 text (Some E)) by auto. simpl.
    match goal with |- context [revalidateEach _ _ _ _ _ _ ?w2] => set (w2' := w2) end.
    specialize (IH w2' Hlook Hstale1).
    destruct IH as (IHc & IHf & IHs & IHr).
    repeat split.
    + rewrite IHc. simpl. lia.
    + rewrite IHf. unfold w2'.
      rewrite (inFlight_push key (ttl opts) _ w). lia.
    + rewrite IHs. reflexivity.
    + exact IHr.
Qed.

(** C5. [isStale] compares the age of the entry with the TTL, strictly,
    and reads nothing but the clock. Hence an entry that [set] has just
    written and [get] reads back is not stale at the instant of the
    write for any TTL from 0 up, and [ms] milliseconds later it is stale
    exactly when [ms] exceeds the TTL. *)
Theorem isStale_strict_after_set key d (ttl0 : option Z) (t : Z) (w : MemWorld) text :
  0 <= t ->
  JSON_stringify JSON (mkEntry d (now w) false) = Returned text ->
  text <> "" ->
  JSON_parse JSON text = Returned (Some (mkEntry d (now w) false)) ->
  (forall (e : CacheEntry T) (t' : Z) (w' : MemWorld),
      isStale e (Some t') w' = (now w' - timestamp e >? t')) /\
  let w1 := snd (set memoryStorage JSON key d ttl0 w) in
  exists e,
    get memoryStorage JSON key w1 = (Returned (Some e), w1) /\
    data e = d /\ timestamp e = now w /\
    isStale e (Some t) w1 = false /\
    forall ms, isStale e (Some t) (snd (tick ms w1)) = (ms >? t).
Proof.
  intros Ht Hprint Hne Hparse. split; [reflexivity|].
  exists (mkEntry d (now w) false).
  assert (Hw1 : snd (set memoryStorage JSON key d ttl0 w) =
                mkWorld (<[CACHE_PREFIX +:+ key := text]> (storage w)) (now w)
                        (console w) (fetchCalls w) (background w)).
  { run_js. rewrite Hprint. reflexivity. }
  rewrite Hw1. repeat split.
  - apply (get_memory key _ text); auto. simpl. apply lookup_insert_eq.
  - unfold isStale. simpl. lia.
  - intros ms. unfold isStale. simpl. f_equal. lia.
Qed.

End MemoryCacheFacts.

(* ===================================================================== *)
(** * Properties of the pagination hook and of the products reducers      *)
(* ===================================================================== *)

Section PaginationFacts.
Import Pagination.
Context {T : Type}.

(** While a load is pending the guard of [loadPage] returns at once. *)
Lemma loadPage_call_guarded n r (h : Hook T) :
  isLoadingRef h = true -> loadPage_call n r h = (h, None).
Proof. unfold loadPage_call. intros ->. reflexivity. Qed.

Lemma loadPage_call_pending n r (h h1 : Hook T) p :
  loadPage_call n r h = (h1, Some p) ->
  isLoadingRef h = false /\ isLoadingRef h1 = true /\
  fetched h1 = fetched h ++ [n] /\ data h1 = data h /\ p = mkPending n r.
Proof.
  unfold loadPage_call. destruct (isLoadingRef h); [discriminate|].
  intros [= <- <-]. simpl. auto.
Qed.

(** C8. If a [loadMore] call has started a load, a second [loadMore]
    before the fetch settles, whatever state values its closure holds,
    changes nothing and fetches nothing: the two calls together made one
    fetch, and when the fetch settles the first call finishes on the
    state it left, as it would have without the second call. The same
    holds for a [refresh] issued in between. *)
Theorem second_loadMore_is_noop (r1 r2 : Render) (h h1 : Hook T) (p : Pending) :
  loadMore r1 h = (h1, Some p) ->
  loadMore r2 h1 = (h1, None) /\
  refresh h1 = (h1, None) /\
  fetched (fst (loadMore r2 h1)) = fetched h ++ [pageNum p] /\
  length (fetched (fst (loadMore r2 h1))) = Datatypes.S (length (fetched h)) /\
  forall settlement,
    loadPage_resume p settlement (fst (loadMore r2 h1)) = loadPage_resume p settlement h1.
Proof.
  unfold loadMore at 1.
  destruct (negb (seen_isLoading r1) && seen_hasMore r1); [|discriminate].
  intros Hcall. apply loadPage_call_pending in Hcall as (_ & Href & Hlog & _ & ->).
  assert (Hnoop : loadMore r2 h1 = (h1, None)).
  { unfold loadMore. destruct (negb (seen_isLoading r2) && seen_hasMore r2); [|reflexivity].
    apply loadPage_call_guarded, Href. }
  rewrite Hnoop. simpl. repeat split; auto.
  - apply loadPage_call_guarded, Href.
  - rewrite Hlog, length_app. simpl. lia.
Qed.

End PaginationFacts.

Section FailureFacts.
Import Pagination ProductsSlice.


End FailureFacts.

Section MergeFacts.
Import Pagination ProductsSlice.

Lemma filter_none {A : Type} (P : A -> Prop) `{forall x, Decision (P x)} (l : list A) :
  (forall x, x ∈ l -> ~ P x) -> filter P l = [].
Proof.
  induction l as [|a l IH]; intros Hl; [reflexivity|].
  rewrite filter_cons_False by (apply Hl; constructor).
  apply IH. intros x Hx. apply Hl. constructor. exact Hx.
Qed.

Lemma newItems_by_membership {Product : Type} (id : Product -> Z) existing payload :
  newItems id existing payload = filter (fun item => id item ∉ id <$> existing) payload.
Proof.
  unfold newItems. apply list_filter_iff. intros item.
  rewrite elem_of_list_to_set. reflexivity.
Qed.

Lemma fulfilled_next_page {Product : Type} (id : Product -> Z) arg payload
    (state : ProductsState Product) :
  arg_page arg <> 0 ->
  items (fulfilled id arg payload state) = items state ++ newItems id (items state) payload.
Proof.
  intros Hpage. unfold fulfilled.
  destruct (arg_page arg =? 0) eqn:E; [lia|]. reflexivity.
Qed.

(** C3, as the code has it. The products reducer merges a page other
    than the first by identity: the list after the merge is the list
    before it followed by the incoming products whose id is not among
    the ids already listed, in their incoming order; so the products
    already listed stay where they are, and a page that brings only
    listed ids changes nothing. With [1, 2] listed and [2, 3] incoming
    the list becomes [1, 2, 3]. The hook [usePagination] does not look
    at identities: outside a refresh it appends the whole incoming page. *)
Theorem merge_by_code_path :
  (forall (Product : Type) (id : Product -> Z) arg payload (state : ProductsState Product),
      arg_page arg <> 0 ->
      let merged := items (fulfilled id arg payload state) in
      let appended := drop (length (items state)) merged in
      merged = items state ++ appended /\
      appended = filter (fun item => id item ∉ id <$> items state) payload /\
      appended `sublist_of` payload /\
      (forall item, item ∈ appended <-> item ∈ payload /\ id item ∉ id <$> items state) /\
      take (length (items state)) merged = items state /\
      ((forall item, item ∈ payload -> id item ∈ id <$> items state) ->
       merged = items state)) /\
  items (fulfilled item_id (mkArgs 1 2) [mkItem 2 "two"; mkItem 3 "three"] twoListed)
    = [mkItem 1 "one"; mkItem 2 "two"; mkItem 3 "three"] /\
  (forall (T : Type) (p : Pending) (response : PaginatedResponse T) (h : Hook T),
      isRefresh p = false ->
      Pagination.data (loadPage_resume p (Returned response) h)
        = Pagination.data h ++ r_data response).
Proof.
  split; [|split].
  - intros Product id arg payload state Hpage merged appended.
    assert (Hmerged : merged = items state ++ newItems id (items state) payload)
      by (apply fulfilled_next_page, Hpage).
    assert (Happ : appended = newItems id (items state) payload).
    { unfold appended. rewrite Hmerged, drop_app_length. reflexivity. }
    rewrite newItems_by_membership in Happ.
    split; [rewrite Hmerged, Happ, newItems_by_membership; reflexivity|].
    split; [exact Happ|].
    split; [rewrite Happ; apply sublist_filter|].
    split; [intros item; rewrite Happ, list_elem_of_filter; tauto|].
    split; [rewrite Hmerged; apply take_app_length|].
    intros Hall. rewrite Hmerged, newItems_by_membership.
    assert (Hnil : filter (fun item => id item ∉ id <$> items state) payload = []).
    { apply filter_none. intros item Hin Hnot. apply Hnot, Hall, Hin. }
    rewrite Hnil. apply app_nil_r.
  - vm_compute. reflexivity.
  - intros T p response h Hp. simpl. rewrite Hp. reflexivity.
Qed.

End MergeFacts.

(* ===================================================================== *)
(** * Properties of the promise pool                                      *)
(* ===================================================================== *)

Section PoolFacts.
Import PromisePool.
Local Open Scope nat_scope.
Context {T : Type}.
Implicit Types (l : Loop T) (p q : Promise T) (ps ex : list (Promise T)).

(** *** The array operations *)

Lemma findIndexFrom_last (i : Z) p ex :
  Forall (fun q => index q <> index p) ex ->
  findIndexFrom i (same p) (ex ++ [p]) = (i + Z.of_nat (length ex))%Z.
Proof.
  intros Hex. revert i. induction Hex as [|q ex Hq _ IH]; intros i; simpl.
  - unfold same. rewrite Nat.eqb_refl. lia.
  - unfold same at 1. destruct (Nat.eqb_spec (index q) (index p)); [contradiction|].
    rewrite IH. lia.
Qed.

Lemma splice1_last p ex : splice1 (Z.of_nat (length ex)) (ex ++ [p]) = ex.
Proof.
  unfold splice1. rewrite length_app. simpl.
  destruct (Z.ltb_spec (Z.of_nat (length ex)) 0); [lia|].
  rewrite Z.min_l by lia. rewrite Nat2Z.id.
  rewrite delete_middle. apply app_nil_r.
Qed.

(** Removing [promise] right after pushing it gives the array back. *)
Lemma push_then_splice p ex :
  Forall (fun q => index q <> index p) ex ->
  splice1 (findIndex (same p) (ex ++ [p])) (ex ++ [p]) = ex.
Proof.
  intros Hex. unfold findIndex. rewrite findIndexFrom_last by exact Hex.
  apply splice1_last.
Qed.

(** *** The loop, one task at a time *)

Lemma forLoop_snoc c (tasks : list (Task T)) t :
  forLoop c (tasks ++ [t]) = iteration c (forLoop c tasks) (length tasks, t).
Proof.
  unfold forLoop. rewrite imap_app, foldl_app. simpl.
  rewrite Nat.add_0_r. reflexivity.
Qed.

Lemma iteration_promises c l i t :
  promises (iteration c l (i, t)) = promises l ++ [newPromise l i t].
Proof. unfold iteration. destruct (_ >=? c)%Z; reflexivity. Qed.

Lemma iteration_clock c l i t : clock l <= clock (iteration c l (i, t)).
Proof.
  unfold iteration. destruct (_ >=? c)%Z; simpl; [|lia].
  unfold raceResumes. lia.
Qed.

Lemma forLoop_indices c (tasks : list (Task T)) :
  index <$> promises (forLoop c tasks) = seq 0 (length tasks) /\
  result <$> promises (forLoop c tasks) = value <$> tasks.
Proof.
  induction tasks as [|t tasks [IHi IHr]] using rev_ind; [split; reflexivity|].
  rewrite forLoop_snoc, iteration_promises, !fmap_snoc, length_app, IHi, IHr. simpl.
  split; [|reflexivity].
  rewrite Nat.add_1_r, seq_S. reflexivity.
Qed.

Lemma forLoop_length c (tasks : list (Task T)) :
  length (promises (forLoop c tasks)) = length tasks.
Proof.
  rewrite <- (length_fmap index), (proj1 (forLoop_indices c tasks)). apply length_seq.
Qed.

Lemma forLoop_indices_below c (tasks : list (Task T)) :
  Forall (fun q => index q < length tasks) (promises (forLoop c tasks)).
Proof.
  apply Forall_forall. intros q Hq.
  assert (Hin : index q ∈ index <$> promises (forLoop c tasks))
    by (apply list_elem_of_fmap; eauto).
  rewrite (proj1 (forLoop_indices c tasks)) in Hin.
  apply list_elem_of_In, in_seq in Hin. lia.
Qed.

(** The defect in one line: once [concurrency - 1] promises are in
    [executing], each later promise is pushed and, after the race,
    spliced out again itself, so the array holds the first
    [concurrency - 1] promises for the rest of the loop, settled or not. *)
Lemma forLoop_executing c (tasks : list (Task T)) :
  executing (forLoop c tasks) = take (Z.to_nat (c - 1)) (promises (forLoop c tasks)).
Proof.
  induction tasks as [|t tasks IH] using rev_ind; [symmetry; apply take_nil|].
  rewrite forLoop_snoc, iteration_promises.
  pose proof (forLoop_indices_below c tasks) as Hbelow.
  set (l := forLoop c tasks) in *. set (m := Z.to_nat (c - 1)) in *.
  unfold iteration. fold (newPromise l (length tasks) t).
  set (p := newPromise l (length tasks) t).
  rewrite length_app. simpl.
  destruct (Z.geb_spec (Z.of_nat (length (executing l) + 1)) c) as [Hfull|Hroom]; simpl.
  - rewrite push_then_splice.
    + assert (Hlen : length (executing l) = m).
      { apply Nat.le_antisymm; [rewrite IH, length_take; lia | lia]. }
      rewrite take_app_le; [exact IH|].
      rewrite IH, length_take in Hlen. lia.
    + rewrite IH. apply Forall_take.
      eapply Forall_impl; [exact Hbelow|]. simpl. intros q Hq. unfold p. simpl. lia.
  - assert (Hall : executing l = promises l).
    { rewrite IH. apply take_ge. rewrite IH, length_take in Hroom. lia. }
    rewrite Hall. symmetry. apply take_ge. rewrite length_app. simpl.
    rewrite Hall in Hroom. lia.
Qed.

(** *** The results array *)

Lemma resultsAt_snoc ps p t :
  resultsAt (ps ++ [p]) t =
    if settlesAt p <=? t then assign (resultsAt ps t) (index p) (result p)
    else resultsAt ps t.
Proof. unfold resultsAt. rewrite foldl_app. reflexivity. Qed.

Lemma assign_at_end {A} (arr : list (option A)) (x : A) :
  assign arr (length arr) x = arr ++ [Some x].
Proof.
  unfold assign. destruct (decide (length arr < length arr)); [lia|].
  rewrite Nat.sub_diag. reflexivity.
Qed.

(** When every promise has settled the array is full and in index
    order. *)
Lemma resultsAt_all ps t :
  Forall (fun p => settlesAt p <= t) ps ->
  index <$> ps = seq 0 (length ps) ->
  resultsAt ps t = (fun p => Some (result p)) <$> ps.
Proof.
  induction ps as [|p ps IH] using rev_ind; intros Hsettled Hindex; [reflexivity|].
  apply Forall_app in Hsettled as [Hps Hp]. rewrite Forall_singleton in Hp.
  rewrite fmap_snoc, length_app, Nat.add_1_r, seq_S in Hindex. simpl in Hindex.
  apply app_inj_tail in Hindex as [Hindex Hlast].
  rewrite resultsAt_snoc, fmap_snoc.
  destruct (Nat.leb_spec (settlesAt p) t); [|lia].
  rewrite IH by assumption.
  rewrite Hlast, <- (length_fmap (fun p => Some (result p)) ps).
  apply assign_at_end.
Qed.

Lemma settles_before_latest p ps :
  p ∈ ps -> settlesAt p <= foldr Nat.max 0 (settlesAt <$> ps).
Proof.
  induction 1 as [p ps|p q ps _ IH]; rewrite fmap_cons; simpl; lia.
Qed.

(** If every task has settled when the pool returns, the caller gets
    the results in input order. *)
Lemma complete_when_all_settled (tasks : list (Task T)) c :
  Forall (fun p => settlesAt p <= returnedAt (promisePool tasks c))
         (created (promisePool tasks c)) ->
  inInputOrder tasks c.
Proof.
  intros Hsettled. unfold inInputOrder, promisePool in *. simpl in *.
  destruct (forLoop_indices c tasks) as [Hindex Hresult].
  rewrite resultsAt_all.
  - change ((Some ∘ result) <$> promises (forLoop c tasks) = (Some ∘ value) <$> tasks).
    rewrite !list_fmap_compose, Hresult. reflexivity.
  - exact Hsettled.
  - rewrite Hindex, forLoop_length. reflexivity.
Qed.

(** X10. For tasks whose promises all fulfil: with a limit above the number
    of tasks nothing is awaited in the loop, [Promise.all] waits for
    every task, and the results are complete and in input order. *)
Lemma pool_without_limit (tasks : list (Task T)) (c : Z) :
  (Z.of_nat (length tasks) < c)%Z -> inInputOrder tasks c.
Proof.
  intros Hc. apply complete_when_all_settled.
  unfold promisePool. simpl.
  rewrite forLoop_executing, take_ge by (rewrite forLoop_length; lia).
  apply Forall_forall. intros p Hp. unfold allResumes.
  pose proof (settles_before_latest p _ Hp). lia.
Qed.

(** *** A limit of one *)

Lemma unsettledAt_snoc ps p t :
  unsettledAt (ps ++ [p]) t =
    unsettledAt ps t + (if (startedAt p <=? t) && (t <? settlesAt p) then 1 else 0).
Proof.
  unfold unsettledAt. rewrite List.filter_app, length_app. simpl.
  destruct ((startedAt p <=? t) && (t <? settlesAt p)); reflexivity.
Qed.

Lemma forLoop_sequential (tasks : list (Task T)) :
  let l := forLoop 1 tasks in
  executing l = [] /\
  Forall (fun p => settlesAt p <= clock l) (promises l) /\
  forall t, unsettledAt (promises l) t <= 1 /\
  (clock l <= t -> unsettledAt (promises l) t = 0).
Proof.
  induction tasks as [|task tasks (IHex & IHsettled & IHrun)] using rev_ind.
  - simpl. repeat split; auto.
  - rewrite forLoop_snoc. set (l := forLoop 1 tasks) in *.
    assert (Hstep : iteration 1 l (length tasks, task) =
                    mkLoop (clock l + duration task) []
                           (promises l ++ [newPromise l (length tasks) task])).
    { unfold iteration. rewrite IHex.
      rewrite (push_then_splice _ []) by constructor.
      unfold raceResumes. simpl. f_equal. lia. }
    rewrite Hstep. simpl. split; [reflexivity|]. split.
    + apply Forall_app. split.
      * eapply Forall_impl; [exact IHsettled|]. simpl. intros; lia.
      * rewrite Forall_singleton. simpl. lia.
    + intros t. rewrite unsettledAt_snoc. simpl.
      destruct (IHrun t) as [Hle Hzero].
      destruct (Nat.leb_spec (clock l) t) as [Hpast|Hbefore]; simpl.
      * rewrite (Hzero Hpast).
        destruct (Nat.ltb_spec t (clock l + duration task)); simpl; split; lia.
      * split; lia.
Qed.

(** X9. For tasks whose promises all fulfil: with a limit of one the pool is
    a sequential loop, one task at a time, with complete results in input
    order. *)
Lemma pool_of_one (tasks : list (Task T)) :
  respectsLimit tasks 1 /\ inInputOrder tasks 1.
Proof.
  destruct (forLoop_sequential tasks) as (Hex & Hsettled & Hrun). split.
  - intros t. unfold promisePool. simpl. destruct (Hrun t). lia.
  - apply complete_when_all_settled. unfold promisePool. simpl.
    eapply Forall_impl; [exact Hsettled|]. simpl. intros p Hp.
    unfold allResumes. lia.
Qed.

End PoolFacts.

Section PoolRuns.
Import PromisePool.
Local Open Scope nat_scope.

(** The documented scenario: three timers of 200, 100 and 50 with a
    limit of 2 give the three results in input order. *)
Example pool_scenario :
  promisePool scenarioTasks 2 =
    mkRun 200 [Some "A"; Some "B"; Some "C"]
          [mkPromise 0 0 200 "A"; mkPromise 1 0 100 "B"; mkPromise 2 100 150 "C"].
Proof. reflexivity. Qed.

(** C2, on the code. Four tasks of 1, 10, 20 and 30 instants with a
    limit of 2: after the first race the loop splices out the promise it
    has just pushed, not the one that settled, so the settled first
    promise stays in [executing] and every later race resumes at once.
    At instant 1 the tasks 1, 2 and 3 have all been started, and up to
    instant 10 three tasks are unsettled at the same time. *)
Theorem pool_exceeds_limit :
  executing (forLoop 2 quickThenSlow) = [mkPromise 0 0 1 "A"] /\
  created (promisePool quickThenSlow 2) =
    [mkPromise 0 0 1 "A"; mkPromise 1 0 10 "B";
     mkPromise 2 1 21 "C"; mkPromise 3 1 31 "D"] /\
  unsettledAt (created (promisePool quickThenSlow 2)) 5 = 3 /\
  ~ respectsLimit quickThenSlow 2.
Proof.
  repeat split; try reflexivity.
  intros Hlimit. specialize (Hlimit 5). vm_compute in Hlimit. apply Hlimit. reflexivity.
Qed.

(** C4, on the code. Two tasks of 1 and 10 instants with a limit of 2:
    the second promise is spliced out of [executing] while it is
    pending, [Promise.all] waits for the first one only, and the pool
    resolves at instant 1 with an array of length 1 that lacks the
    result of the second task. *)
Theorem pool_returns_before_slow_task :
  promisePool quickAndSlow 2 =
    mkRun 1 [Some "A"] [mkPromise 0 0 1 "A"; mkPromise 1 0 10 "B"] /\
  length (results (promisePool quickAndSlow 2)) = 1 /\
  results (promisePool quickAndSlow 2) !! 1 = None /\
  ~ inInputOrder quickAndSlow 2.
Proof.
  repeat split; try reflexivity.
  unfold inInputOrder. vm_compute. discriminate.
Qed.

End PoolRuns.

(* ===================================================================== *)
(** * The theorems at concrete inputs                                     *)
(* ===================================================================== *)

Section CacheRuns.
Import Cache.

(** The documented scenario on an empty cache: one awaited fetch, the
    fresh value is stored and returned as not stale. *)
Example revalidate_empty_cache :
  let run := cacheWithRevalidation memoryStorage lineCodec "posts" fetchPosts
               (Some (mkOptions 0 true)) emptyWorld in
  fst run = Returned (mkRevalidated "new posts" false) /\
  fetchCalls (snd run) = 1%nat /\
  background (snd run) = [] /\
  storage (snd run) !! (CACHE_PREFIX +:+ "posts") = Some "5000:false:new posts".
Proof. vm_compute. repeat split; reflexivity. Qed.

(** The background refresh of a stale entry settles: the fresh value is
    written with the clock of that instant, nothing is in flight any
    more, and the next caller is served the fresh value without a fetch. *)
Example background_refresh_settles :
  let w1 := snd (cacheWithRevalidation memoryStorage lineCodec "posts" fetchPosts
                   (Some demoOptions) staleWorld) in
  let w2 := snd (settleBackground memoryStorage lineCodec 0 w1) in
  let run := cacheWithRevalidation memoryStorage lineCodec "posts" fetchPosts
               (Some demoOptions) w2 in
  storage w2 !! (CACHE_PREFIX +:+ "posts") = Some "100000:false:new posts" /\
  inFlight "posts" w2 = 0%nat /\
  fst run = Returned (mkRevalidated "new posts" false) /\
  fetchCalls (snd run) = 1%nat.
Proof. vm_compute. repeat split; reflexivity. Qed.

(** A backend that rejects every operation: reads and writes are logged
    and absorbed, and the coordinator falls back to the awaited fetch. *)
Example failing_storage_is_absorbed :
  let w := mkWorld tt 5000 [] 0%nat [] in
  let run := cacheWithRevalidation failingStorage lineCodec "posts" fetchPosts None w in
  get failingStorage lineCodec "posts" w
    = (Returned None, mkWorld tt 5000 ["Cache get error:"] 0%nat []) /\
  fst run = Returned (mkRevalidated "new posts" false) /\
  console (snd run) = ["Cache get error:"; "Cache set error:"] /\
  fetchCalls (snd run) = 1%nat.
Proof. vm_compute. repeat split; reflexivity. Qed.

(** C1 fails on the code: a stale entry under [posts],
    stale-while-revalidate on. The first call starts a background
    refresh; a second call made while that refresh is unsettled invokes
    [fetchFn] again, and two fetches for the key are in flight. *)
Lemma second_stale_call_fetches_again :
  let w1 := snd (cacheWithRevalidation memoryStorage lineCodec "posts" fetchPosts
                   (Some demoOptions) staleWorld) in
  let w2 := snd (cacheWithRevalidation memoryStorage lineCodec "posts" fetchPosts
                   (Some demoOptions) w1) in
  (fetchCalls w1 = 1 /\ inFlight "posts" w1 = 1)%nat /\
  (fetchCalls w2 = 2 /\ inFlight "posts" w2 = 2)%nat /\
  ~ (fetchCalls w2 <= 1)%nat /\
  ~ (inFlight "posts" w2 <= 1)%nat.
Proof. vm_compute. repeat split; try reflexivity; intros H; inversion H as [|? H']; inversion H'. Qed.

Lemma every_stale_call_fetches_witness :
  let w' := revalidateEach memoryStorage lineCodec [0; 50] "posts" fetchPosts
              (Some demoOptions) staleWorld in
  fetchCalls w' = 2%nat /\
  inFlight "posts" w' = 2%nat /\
  storage w' = storage staleWorld /\
  forall later, 0 <= later ->
    fst (cacheWithRevalidation memoryStorage lineCodec "posts" fetchPosts
           (Some demoOptions) (snd (tick later w')))
    = Returned (mkRevalidated "old posts" true).
Proof.
  apply (every_stale_call_fetches lineCodec [0; 50] "posts" fetchPosts demoOptions
           staleWorld "0:false:old posts" oldPosts).
  - reflexivity.
  - discriminate.
  - reflexivity.
  - reflexivity.
  - reflexivity.
  - repeat constructor; lia.
Defined.

Lemma fresh_entry_served_without_fetch_witness :
  get_result memoryStorage lineCodec "posts" freshWorld = Some oldPosts /\
  isStale oldPosts (Some 60000) freshWorld = false /\
  let run := cacheWithRevalidation memoryStorage lineCodec "posts" fetchPosts
               (Some demoOptions) freshWorld in
  fst run = Returned (mkRevalidated "old posts" false) /\
  snd run = snd (get memoryStorage lineCodec "posts" freshWorld) /\
  fetchCalls (snd run) = 0%nat /\
  background (snd run) = [].
Proof.
  split; [reflexivity|]. split; [reflexivity|].
  apply (fresh_entry_served_without_fetch memoryStorage lineCodec "posts" fetchPosts
           (Some demoOptions) freshWorld oldPosts); reflexivity.
Defined.

Lemma isStale_strict_after_set_witness :
  let w1 := snd (set memoryStorage lineCodec "a" "v1" (Some 1000) emptyWorld) in
  exists e,
    get memoryStorage lineCodec "a" w1 = (Returned (Some e), w1) /\
    data e = "v1" /\ timestamp e = 5000 /\
    isStale e (Some 1000) w1 = false /\
    forall ms, isStale e (Some 1000) (snd (tick ms w1)) = (ms >? 1000).
Proof.
  apply (isStale_strict_after_set lineCodec "a" "v1" (Some 1000) 1000 emptyWorld
           "5000:false:v1").
  - lia.
  - reflexivity.
  - discriminate.
  - reflexivity.
Defined.

Lemma set_ignores_ttl_witness :
  storage (snd (set memoryStorage lineCodec "a" "v1" (Some 1) emptyWorld)) =
  snd (setItem memoryStorage (CACHE_PREFIX +:+ "a") "5000:false:v1" (storage emptyWorld)).
Proof.
  apply (proj1 (proj2 (set_ignores_ttl memoryStorage lineCodec "a" "v1"
                         (Some 1) (Some 86400000) emptyWorld))).
  reflexivity.
Defined.

End CacheRuns.

Section PaginationRuns.
Import Pagination ProductsSlice.

(** The hook after the first page. *)
Example hook_after_page_one :
  afterPageOne = mkHook [1; 2] 1 false false true None false [1].
Proof. reflexivity. Qed.

(** C3 fails on the hook: with [1, 2] loaded, a next page [2, 3] is
    appended whole and the item 2 is listed twice. *)
Lemma hook_appends_listed_item :
  let '(h, p) := loadMore (render afterPageOne) afterPageOne in
  p = Some (mkPending 2 false) /\
  Pagination.data (loadPage_resume (mkPending 2 false) (Returned pageTwo) h)
    = [1; 2; 2; 3] /\
  Pagination.data (loadPage_resume (mkPending 2 false) (Returned pageTwo) h)
    <> [1; 2; 3].
Proof. vm_compute. repeat split; discriminate. Qed.

Lemma merge_by_code_path_witness :
  let payload := [mkItem 2 "two"; mkItem 3 "three"] in
  let merged := items (fulfilled item_id (mkArgs 1 2) payload twoListed) in
  let appended := drop (length (items twoListed)) merged in
  merged = items twoListed ++ appended /\
  appended = filter (fun item => item_id item ∉ item_id <$> items twoListed) payload /\
  appended `sublist_of` payload /\
  (forall item, item ∈ appended <->
                item ∈ payload /\ item_id item ∉ item_id <$> items twoListed) /\
  take (length (items twoListed)) merged = items twoListed /\
  ((forall item, item ∈ payload -> item_id item ∈ item_id <$> items twoListed) ->
   merged = items twoListed).
Proof.
  apply (proj1 merge_by_code_path Item item_id (mkArgs 1 2)
           [mkItem 2 "two"; mkItem 3 "three"] twoListed).
  discriminate.
Defined.

Lemma second_loadMore_is_noop_witness :
  let r := render afterPageOne in
  let h1 := mkHook [1; 2] 1 true false true None true [1; 2] in
  loadMore r afterPageOne = (h1, Some (mkPending 2 false)) /\
  loadMore r h1 = (h1, None) /\
  refresh h1 = (h1, None) /\
  fetched (fst (loadMore r h1)) = fetched afterPageOne ++ [2] /\
  length (fetched (fst (loadMore r h1))) = 2%nat /\
  forall settlement,
    loadPage_resume (mkPending 2 false) settlement (fst (loadMore r h1))
    = loadPage_resume (mkPending 2 false) settlement h1.
Proof.
  split; [reflexivity|].
  apply (second_loadMore_is_noop (render afterPageOne) (render afterPageOne)
           afterPageOne (mkHook [1; 2] 1 true false true None true [1; 2])
           (mkPending 2 false)).
  reflexivity.
Defined.



End PaginationRuns.

(* ===================================================================== *)
(** * More on the cache service                                           *)
(* ===================================================================== *)

Section CacheKeys.
Import Cache.

Lemma append_inj_l (p a b : string) : p +:+ a = p +:+ b -> a = b.
Proof. induction p as [|c p IH]; simpl; [auto|]. intros [= H]. auto. Qed.

Lemma substring_prefix (p s : string) :
  String.substring 0 (String.length p) (p +:+ s) = p.
Proof.
  induction p as [|c p IH]; simpl.
  - destruct s; reflexivity.
  - rewrite IH. reflexivity.
Qed.

Lemma startsWith_prefix (p s : string) : startsWith p (p +:+ s) = true.
Proof. unfold startsWith. apply bool_decide_eq_true_2, substring_prefix. Qed.

Lemma lookup_foldr_delete {V : Type} (ks : list string) (m : gmap string V) (k : string) :
  foldr delete m ks !! k = if decide (k ∈ ks) then None else m !! k.
Proof.
  induction ks as [|k0 ks IH]; simpl.
  - destruct (decide (k ∈ [])) as [Hin|_]; [inversion Hin|reflexivity].
  - destruct (decide (k0 = k)) as [->|Hne].
    + rewrite lookup_delete_eq.
      destruct (decide (k ∈ k :: ks)) as [_|Hnot]; [reflexivity|].
      exfalso. apply Hnot. constructor.
    + rewrite lookup_delete_ne by exact Hne. rewrite IH.
      destruct (decide (k ∈ ks)) as [Hin|Hnot];
        destruct (decide (k ∈ k0 :: ks)) as [Hin'|Hnot']; try reflexivity.
      * exfalso. apply Hnot'. constructor. exact Hin.
      * exfalso. apply elem_of_cons in Hin' as [->|Hin']; [congruence|contradiction].
Qed.

Lemma List_filter_none {A : Type} (f : A -> bool) (l : list A) :
  (forall x, x ∈ l -> f x = false) -> List.filter f l = [].
Proof.
  induction l as [|a l IH]; intros Hl; simpl; [reflexivity|].
  rewrite (Hl a) by constructor. apply IH. intros x Hx. apply Hl. constructor. exact Hx.
Qed.

End CacheKeys.

Section CacheExtras.
Import Cache.
Context {S T : Type}.
Variable AsyncStorage : AsyncStorageImpl S.
Variable JSON : JsonCodec T.

(** The state [cacheWithRevalidation] leaves when it awaits [fetchFn]
    and the fetch rejects. *)
Lemma awaited_failure_run key fetchFn options (w : World S T) e :
  let o := default (mkOptions DEFAULT_TTL true) options in
  (get_result AsyncStorage JSON key w = None \/
   exists E, get_result AsyncStorage JSON key w = Some E /\
             isStale E (Some (ttl o)) w = true /\ staleWhileRevalidate o = false) ->
  fetchFn (fetchCalls w) = Thrown e ->
  cacheWithRevalidation AsyncStorage JSON key fetchFn options w =
    (Thrown e,
     let w1 := snd (get AsyncStorage JSON key w) in
     mkWorld (storage w1) (now w1) (console w1) (Datatypes.S (fetchCalls w1)) (background w1)).
Proof.
  intros o Hcase Hfetch. unfold cacheWithRevalidation. fold o. unfold bind at 1.
  pose proof (get_returns AsyncStorage JSON key w) as Hget.
  pose proof (get_frame AsyncStorage JSON key w) as (Hnow & Hcalls & _).
  destruct (get AsyncStorage JSON key w) as [r w1]. simpl in *. subst r.
  destruct Hcase as [Hnone|(E & HE & Hstale & Hswr)].
  - rewrite Hnone. unfold bind at 1, await_fetch. rewrite Hcalls, Hfetch. reflexivity.
  - rewrite HE. unfold bind at 1, gets.
    rewrite (isStale_clock _ _ _ _ Hnow), Hstale, Hswr. simpl.
    unfold bind at 1, await_fetch. rewrite Hcalls, Hfetch. reflexivity.
Qed.

(** X1. When nothing is cached for the key, or the cached entry is stale and
    stale-while-revalidate is off, the fetch is awaited, and if it
    rejects the rejection reaches the caller: the stale data is not
    served instead, [set] is not called, nothing is left in flight, and
    [fetchFn] has been invoked once. *)
Theorem awaited_fetch_failure_propagates key fetchFn options (w : World S T) e :
  let o := default (mkOptions DEFAULT_TTL true) options in
  (get_result AsyncStorage JSON key w = None \/
   exists E, get_result AsyncStorage JSON key w = Some E /\
             isStale E (Some (ttl o)) w = true /\ staleWhileRevalidate o = false) ->
  fetchFn (fetchCalls w) = Thrown e ->
  let run := cacheWithRevalidation AsyncStorage JSON key fetchFn options w in
  fst run = Thrown e /\
  storage (snd run) = storage (snd (get AsyncStorage JSON key w)) /\
  console (snd run) = console (snd (get AsyncStorage JSON key w)) /\
  fetchCalls (snd run) = Datatypes.S (fetchCalls w) /\
  background (snd run) = background w.
Proof.
  intros o Hcase Hfetch run. subst run.
  rewrite (awaited_failure_run key fetchFn options w e Hcase Hfetch). simpl.
  pose proof (get_frame AsyncStorage JSON key w) as (_ & Hcalls & Hbg).
  rewrite Hcalls, Hbg. auto.
Qed.

(** A background refresh whose fetch rejects is dropped: the handler
    logs one line and returns, the backend is not touched (the stale
    entry stays), and the refresh is no longer in flight. *)
Theorem failed_refresh_is_dropped (i : nat) (w : World S T) r e :
  background w !! i = Some r ->
  r_promise r = Thrown e ->
  settleBackground AsyncStorage JSON i w =
    (Returned tt,
     mkWorld (storage w) (now w)
             (console w ++ ["Background revalidation failed:"])
             (fetchCalls w) (delete i (background w))).
Proof.
  intros Hi Hp. unfold settleBackground. rewrite Hi. run_js. rewrite Hp. reflexivity.
Qed.

End CacheExtras.

Section MemoryCacheExtras.
Import Cache.
Context {T : Type}.
Variable JSON : JsonCodec T.

Lemma get_result_lookup key (w : World (gmap string string) T) :
  get_result memoryStorage JSON key w =
    match storage w !! (CACHE_PREFIX +:+ key) with
    | Some text =>
        if decide (text = "") then None
        else match JSON_parse JSON text with Returned e => e | Thrown _ => None end
    | None => None
    end.
Proof. unfold get_result. simpl. destruct (storage w !! _); reflexivity. Qed.

(** X2. [set] writes under its own key only: what [get] finds under every
    other key is what it found before. And when the data cannot be
    serialised the write is given up: the backend is left as it was and
    the error is logged. *)
Theorem set_touches_one_key key d ttl0 (w : World (gmap string string) T) :
  let w1 := snd (set memoryStorage JSON key d ttl0 w) in
  (forall key', key' <> key ->
     get_result memoryStorage JSON key' w1 = get_result memoryStorage JSON key' w) /\
  (is_thrown (JSON_stringify JSON (mkEntry d (now w) false)) = true ->
     storage w1 = storage w /\ console w1 = console w ++ ["Cache set error:"]).
Proof.
  intros w1. subst w1. split.
  - intros key' Hne. rewrite !get_result_lookup. run_js.
    destruct (JSON_stringify JSON _) as [text|e]; simpl; [|reflexivity].
    rewrite lookup_insert_ne; [reflexivity|].
    intros Heq. apply append_inj_l in Heq. congruence.
  - run_js. destruct (JSON_stringify JSON _) as [text|e]; simpl; [discriminate|]. auto.
Qed.

(** X3. [remove] empties its key and no other. And when the next thing to
    touch the cache after [remove(key)] is [cacheWithRevalidation] for
    that key, however much later and with no background refresh settling
    in between, that call awaits exactly one fetch and resolves or
    rejects as the fetch does, whatever was cached before the [remove]
    and whatever the options, and starts nothing in the background. *)
Theorem remove_then_revalidate key fetchFn options (w : World (gmap string string) T) (ms : Z) :
  let w1 := snd (remove memoryStorage key w) in
  get_result memoryStorage JSON key w1 = None /\
  (forall key', key' <> key ->
     get_result memoryStorage JSON key' w1 = get_result memoryStorage JSON key' w) /\
  let run := cacheWithRevalidation memoryStorage JSON key fetchFn options
               (snd (tick ms w1)) in
  fst run = match fetchFn (fetchCalls w) with
            | Returned v => Returned (mkRevalidated v false)
            | Thrown e => Thrown e
            end /\
  fetchCalls (snd run) = Datatypes.S (fetchCalls w) /\
  background (snd run) = background w.
Proof.
  intros w1.
  assert (Hw1 : w1 = mkWorld (delete (CACHE_PREFIX +:+ key) (storage w)) (now w)
                             (console w) (fetchCalls w) (background w)) by reflexivity.
  assert (Hnone : get_result memoryStorage JSON key w1 = None).
  { rewrite get_result_lookup, Hw1. simpl. rewrite lookup_delete_eq. reflexivity. }
  split; [exact Hnone|]. split.
  - intros key' Hne. rewrite !get_result_lookup, Hw1. simpl.
    rewrite lookup_delete_ne; [reflexivity|].
    intros Heq. apply append_inj_l in Heq. congruence.
  - set (w1' := snd (tick ms w1)).
    assert (Hw1' : w1' = mkWorld (delete (CACHE_PREFIX +:+ key) (storage w)) (now w + ms)
                               (console w) (fetchCalls w) (background w)) by reflexivity.
    assert (Hget : get memoryStorage JSON key w1' = (Returned None, w1')).
    { run_js. rewrite Hw1'. simpl. rewrite lookup_delete_eq. reflexivity. }
    set (o := default (mkOptions DEFAULT_TTL true) options).
    set (w2 := mkWorld (storage w1') (now w1') (console w1') (Datatypes.S (fetchCalls w1'))
                       (background w1')).
    assert (Hrun : cacheWithRevalidation memoryStorage JSON key fetchFn options w1' =
                   match fetchFn (fetchCalls w) with
                   | Returned v =>
                       (Returned (mkRevalidated v false),
                        snd (set memoryStorage JSON key v (Some (ttl o)) w2))
                   | Thrown e => (Thrown e, w2)
                   end).
    { unfold cacheWithRevalidation. fold o. unfold bind at 1. rewrite Hget.
      unfold bind at 1, await_fetch. fold w2.
      replace (fetchCalls w1') with (fetchCalls w) by (rewrite Hw1'; reflexivity).
      destruct (fetchFn (fetchCalls w)) as [v|e]; [|reflexivity].
      unfold bind at 1.
      pose proof (set_returns memoryStorage JSON key v (Some (ttl o)) w2) as Hset.
      destruct (set memoryStorage JSON key v (Some (ttl o)) w2) as [r w3].
      simpl in Hset. subst r. reflexivity. }
    rewrite Hrun.
    destruct (fetchFn (fetchCalls w)) as [v|e]; simpl.
    + split; [reflexivity|]. run_js.
      destruct (JSON_stringify JSON _); simpl; auto.
    + auto.
Qed.

(** X4. [clear] removes every cache entry and nothing else: afterwards [get]
    finds nothing under any key, [getSize] is 0, and what the backend
    holds under keys that do not start with the cache prefix is still
    there. *)
Theorem clear_empties_the_cache (w : World (gmap string string) T) :
  let w1 := snd (clear memoryStorage w) in
  (forall key, get_result memoryStorage JSON key w1 = None) /\
  fst (getSize memoryStorage w1) = Returned 0%nat /\
  (forall k, startsWith CACHE_PREFIX k = false -> storage w1 !! k = storage w !! k).
Proof.
  intros w1.
  set (removed := List.filter (startsWith CACHE_PREFIX) (fst <$> map_to_list (storage w))).
  assert (Hw1 : w1 = mkWorld (foldr delete (storage w) removed) (now w)
                             (console w) (fetchCalls w) (background w)) by reflexivity.
  assert (Hremoved : forall k, k ∈ removed <->
                               startsWith CACHE_PREFIX k = true /\ is_Some (storage w !! k)).
  { intros k. unfold removed. rewrite list_elem_of_In, filter_In, <- list_elem_of_In.
    rewrite list_elem_of_fmap. split.
    - intros [[[k' v] [-> Hin]] Hs]. split; [exact Hs|].
      apply elem_of_map_to_list in Hin. simpl. eauto.
    - intros [Hs [v Hv]]. split; [|exact Hs].
      exists (k, v). split; [reflexivity|]. apply elem_of_map_to_list, Hv. }
  assert (Hlook : forall k, storage w1 !! k =
                            if startsWith CACHE_PREFIX k then None else storage w !! k).
  { intros k. rewrite Hw1. simpl. rewrite lookup_foldr_delete.
    destruct (decide (k ∈ removed)) as [Hin|Hnot].
    - apply Hremoved in Hin as [-> _]. reflexivity.
    - destruct (startsWith CACHE_PREFIX k) eqn:Hs; [|reflexivity].
      destruct (storage w !! k) eqn:Hk; [|reflexivity].
      exfalso. apply Hnot, Hremoved. eauto. }
  split; [|split].
  - intros key. rewrite get_result_lookup, Hlook, startsWith_prefix. reflexivity.
  - assert (Hsize : fst (getSize memoryStorage w1) =
                    Returned (length (List.filter (startsWith CACHE_PREFIX)
                                        (fst <$> map_to_list (storage w1)))))
      by reflexivity.
    assert (Hnil : List.filter (startsWith CACHE_PREFIX) (fst <$> map_to_list (storage w1)) = []).
    { apply List_filter_none. intros k Hk.
      apply list_elem_of_fmap in Hk as [[k' v] [-> Hin]].
      apply elem_of_map_to_list in Hin. simpl.
      rewrite Hlook in Hin. destruct (startsWith CACHE_PREFIX k'); [discriminate|reflexivity]. }
    rewrite Hsize, Hnil. reflexivity.
  - intros k Hk. rewrite Hlook, Hk. reflexivity.
Qed.

End MemoryCacheExtras.

Section MemoryCacheFlows.
Import Cache.
Context {T : Type}.
Variable JSON : JsonCodec T.

Lemma fresh_call_run key fetchFn options (w : World (gmap string string) T) text E :
  let o := default (mkOptions DEFAULT_TTL true) options in
  storage w !! (CACHE_PREFIX +:+ key) = Some text ->
  text <> "" ->
  JSON_parse JSON text = Returned (Some E) ->
  isStale E (Some (ttl o)) w = false ->
  cacheWithRevalidation memoryStorage JSON key fetchFn options w =
    (Returned (mkRevalidated (data E) false), w).
Proof.
  intros o Hlook Hne Hparse Hfresh. unfold cacheWithRevalidation. fold o.
  unfold bind at 1. rewrite (get_memory JSON key w text (Some E)) by assumption.
  unfold bind at 1, gets. rewrite Hfresh. reflexivity.
Qed.

(** X5. A miss followed by a hit. With nothing cached for the key and a
    fetch that succeeds, the call resolves with the fetched value, not
    stale, after one fetch; and a second call made up to [ttl]
    milliseconds later (the bound included) is served that value from the
    cache: [fetchFn] is not invoked again. *)
Theorem miss_then_hit key fetchFn fetchFn' options (w : World (gmap string string) T)
    v text ms :
  let o := default (mkOptions DEFAULT_TTL true) options in
  storage w !! (CACHE_PREFIX +:+ key) = None ->
  fetchFn (fetchCalls w) = Returned v ->
  JSON_stringify JSON (mkEntry v (now w) false) = Returned text ->
  text <> "" ->
  JSON_parse JSON text = Returned (Some (mkEntry v (now w) false)) ->
  0 <= ms <= ttl o ->
  let first := cacheWithRevalidation memoryStorage JSON key fetchFn options w in
  let second := cacheWithRevalidation memoryStorage JSON key fetchFn' options
                  (snd (tick ms (snd first))) in
  fst first = Returned (mkRevalidated v false) /\
  fetchCalls (snd first) = Datatypes.S (fetchCalls w) /\
  fst second = Returned (mkRevalidated v false) /\
  fetchCalls (snd second) = Datatypes.S (fetchCalls w) /\
  background (snd second) = background w.
Proof.
  intros o Hmiss Hfetch Hprint Hne Hparse Hms first second.
  assert (Hfirst : first =
            (Returned (mkRevalidated v false),
             mkWorld (<[CACHE_PREFIX +:+ key := text]> (storage w)) (now w) (console w)
                     (Datatypes.S (fetchCalls w)) (background w))).
  { subst first. unfold cacheWithRevalidation. fold o. unfold bind at 1.
    assert (Hget : get memoryStorage JSON key w = (Returned None, w)).
    { run_js. rewrite Hmiss. destruct w; reflexivity. }
    rewrite Hget. unfold bind at 1, await_fetch. rewrite Hfetch.
    unfold bind at 1. run_js. rewrite Hprint. reflexivity. }
  subst second. rewrite Hfirst. simpl.
  rewrite (fresh_call_run key fetchFn' options _ text (mkEntry v (now w) false)); simpl; auto.
  - apply lookup_insert_eq.
  - unfold isStale. simpl. fold o. lia.
Qed.


End MemoryCacheFlows.

Section CacheExtraRuns.
Import Cache.

(** Two refreshes for [posts] are in flight, the first holding an older
    answer than the second; they settle out of order and the older answer
    ends up cached. *)
Example late_refresh_wins :
  let w := mkWorld (storage staleWorld) 100000 [] 2%nat
             [mkRefresh "posts" 60000 (Returned "first answer");
              mkRefresh "posts" 60000 (Returned "second answer")] in
  let w1 := snd (settleBackground memoryStorage lineCodec 1 w) in
  let w2 := snd (settleBackground memoryStorage lineCodec 0 (snd (tick 10 w1))) in
  get_result memoryStorage lineCodec "posts" w2
    = Some (mkEntry "first answer" 100010 false).
Proof. vm_compute. reflexivity. Qed.

Lemma awaited_fetch_failure_propagates_witness :
  let run := cacheWithRevalidation memoryStorage lineCodec "posts" Retry.down
               (Some (mkOptions 60000 false)) staleWorld in
  fst run = Thrown (mkError (Some "down 0")) /\
  storage (snd run) = storage staleWorld /\
  console (snd run) = [] /\
  fetchCalls (snd run) = 1%nat /\
  background (snd run) = [].
Proof.
  apply (awaited_fetch_failure_propagates memoryStorage lineCodec "posts" Retry.down
           (Some (mkOptions 60000 false)) staleWorld (mkError (Some "down 0"))).
  - right. exists oldPosts. repeat split; reflexivity.
  - reflexivity.
Defined.

Lemma failed_refresh_is_dropped_witness :
  let w := mkWorld (storage staleWorld) 100000 [] 1%nat
             [mkRefresh "posts" 60000 (Thrown (mkError (Some "offline")))] in
  settleBackground memoryStorage lineCodec 0 w =
    (Returned tt,
     mkWorld (storage staleWorld) 100000 ["Background revalidation failed:"] 1%nat []).
Proof.
  apply (failed_refresh_is_dropped memoryStorage lineCodec 0
           (mkWorld (storage staleWorld) 100000 [] 1%nat
              [mkRefresh "posts" 60000 (Thrown (mkError (Some "offline")))])
           (mkRefresh "posts" 60000 (Thrown (mkError (Some "offline"))))
           (mkError (Some "offline"))); reflexivity.
Defined.

Lemma set_touches_one_key_witness :
  get_result memoryStorage lineCodec "posts"
    (snd (set memoryStorage lineCodec "users" "v1" None staleWorld))
  = get_result memoryStorage lineCodec "posts" staleWorld.
Proof.
  apply (proj1 (set_touches_one_key lineCodec "users" "v1" None staleWorld) "posts").
  discriminate.
Defined.

Lemma remove_then_revalidate_witness :
  get_result memoryStorage lineCodec "posts" (snd (remove memoryStorage "users" staleWorld))
  = get_result memoryStorage lineCodec "posts" staleWorld.
Proof.
  apply (proj1 (proj2 (remove_then_revalidate lineCodec "users" fetchPosts None staleWorld 0))
           "posts").
  discriminate.
Defined.

(** The schedule the theorem above leaves out: a background refresh for
    [posts] settles after the [remove] and before the next call, which
    is then served the refreshed entry and fetches nothing. *)
Example refresh_settling_after_remove_refills :
  let w := mkWorld (storage staleWorld) 100000 [] 1%nat
             [mkRefresh "posts" 60000 (Returned "new posts")] in
  let w1 := snd (remove memoryStorage "posts" w) in
  let w2 := snd (settleBackground memoryStorage lineCodec 0 w1) in
  let run := cacheWithRevalidation memoryStorage lineCodec "posts" Retry.down
               (Some demoOptions) w2 in
  fst run = Returned (mkRevalidated "new posts" false) /\
  fetchCalls (snd run) = 1%nat.
Proof. vm_compute. split; reflexivity. Qed.

Lemma clear_empties_the_cache_witness :
  let w := mkWorld (<["@theme" := "dark"]> (storage staleWorld)) 0 [] 0%nat
             (@nil (Refresh string)) in
  storage (snd (clear memoryStorage w)) !! "@theme" = storage w !! "@theme".
Proof.
  apply (proj2 (proj2 (clear_empties_the_cache lineCodec
           (mkWorld (<["@theme" := "dark"]> (storage staleWorld)) 0 [] 0%nat
              (@nil (Refresh string))))) "@theme").
  reflexivity.
Defined.

Lemma miss_then_hit_witness :
  let first := cacheWithRevalidation memoryStorage lineCodec "posts" fetchPosts
                 (Some demoOptions) emptyWorld in
  let second := cacheWithRevalidation memoryStorage lineCodec "posts" Retry.down
                  (Some demoOptions) (snd (tick 60000 (snd first))) in
  fst first = Returned (mkRevalidated "new posts" false) /\
  fetchCalls (snd first) = 1%nat /\
  fst second = Returned (mkRevalidated "new posts" false) /\
  fetchCalls (snd second) = 1%nat /\
  background (snd second) = [].
Proof.
  apply (miss_then_hit lineCodec "posts" fetchPosts Retry.down (Some demoOptions)
           emptyWorld "new posts" "5000:false:new posts" 60000).
  - reflexivity.
  - reflexivity.
  - reflexivity.
  - discriminate.
  - reflexivity.
  - simpl. lia.
Defined.


End CacheExtraRuns.

(* ===================================================================== *)
(** * More on the promise pool                                            *)
(* ===================================================================== *)

Section PoolExtras.
Import PromisePool.
Local Open Scope nat_scope.
Context {T : Type}.
Implicit Types (l : Loop T) (p q : Promise T) (ps ex : list (Promise T)).

(** A write past the end of the array. *)
Lemma assign_past_end {A} (arr : list (option A)) (i : nat) (x : A) :
  length arr <= i ->
  assign arr i x = arr ++ replicate (i - length arr) None ++ [Some x].
Proof. intros Hi. unfold assign. destruct (decide (i < length arr)); [lia|reflexivity]. Qed.

(** The array at instant [t], slot by slot: slot [i] holds a value
    exactly when promise [i] has settled by [t], and then its result. *)
Lemma resultsAt_slots ps t :
  index <$> ps = seq 0 (length ps) ->
  length (resultsAt ps t) <= length ps /\
  forall i v,
    resultsAt ps t !! i = Some (Some v) <->
    exists p, ps !! i = Some p /\ result p = v /\ settlesAt p <= t.
Proof.
  induction ps as [|p ps IH] using rev_ind; intros Hindex.
  - split; [simpl; lia|]. intros i v. split; [discriminate|]. intros (p & Hp & _). discriminate.
  - rewrite fmap_snoc, length_app, Nat.add_1_r, seq_S in Hindex. simpl in Hindex.
    apply app_inj_tail in Hindex as [Hindex Hlast].
    destruct (IH Hindex) as [Hlen Hslots].
    rewrite resultsAt_snoc, length_app. simpl.
    destruct (Nat.leb_spec (settlesAt p) t) as [Hdone|Hpending].
    + rewrite Hlast, assign_past_end by exact Hlen.
      set (arr := resultsAt ps t) in *.
      split; [rewrite !length_app, length_replicate; simpl; lia|].
      intros i v. destruct (decide (i < length arr)) as [Hin|Hout].
      * rewrite lookup_app_l by exact Hin. rewrite Hslots.
        rewrite lookup_app_l by lia. reflexivity.
      * rewrite lookup_app_r by lia.
        destruct (decide (i < length ps)) as [Hhole|Hend].
        -- rewrite lookup_app_l by (rewrite length_replicate; lia).
           rewrite lookup_app_l by lia.
           split.
           ++ intros Hrep. apply lookup_replicate in Hrep as [Hrep _]. discriminate.
           ++ intros (q & Hq & Hv & Hs). exfalso.
              assert (Hsome : arr !! i = Some (Some v)) by (apply Hslots; eauto).
              apply lookup_lt_Some in Hsome. lia.
        -- rewrite lookup_app_r by (rewrite length_replicate; lia).
           rewrite length_replicate.
           rewrite lookup_app_r by lia.
           replace (i - length arr - (length ps - length arr)) with (i - length ps) by lia.
           destruct (i - length ps) as [|k] eqn:Hk; simpl.
           ++ split.
              ** intros [= <-]. exists p. auto.
              ** intros (q & [= <-] & <- & _). reflexivity.
           ++ split; [destruct k; discriminate|].
              intros (q & Hq & _). destruct k; discriminate.
    + split; [lia|]. intros i v. rewrite Hslots.
      split.
      * intros (q & Hq & Hv & Hs). exists q. split; [|auto].
        rewrite lookup_app_l by (apply lookup_lt_Some in Hq; exact Hq). exact Hq.
      * intros (q & Hq & Hv & Hs).
        destruct (decide (i < length ps)) as [Hin|Hout].
        -- rewrite lookup_app_l in Hq by exact Hin. eauto.
        -- rewrite lookup_app_r in Hq by lia.
           destruct (i - length ps); simpl in Hq; [|destruct n; discriminate].
           injection Hq as <-. lia.
Qed.

Lemma forLoop_started c (tasks : list (Task T)) :
  Forall (fun p => startedAt p <= clock (forLoop c tasks)) (promises (forLoop c tasks)) /\
  forall i p, promises (forLoop c tasks) !! i = Some p ->
    exists task, tasks !! i = Some task /\
      index p = i /\ result p = value task /\
      settlesAt p = startedAt p + duration task.
Proof.
  induction tasks as [|t tasks [IHs IHp]] using rev_ind.
  - split; [constructor|]. intros i p Hp. discriminate.
  - rewrite forLoop_snoc, iteration_promises.
    pose proof (iteration_clock c (forLoop c tasks) (length tasks) t) as Hclock.
    pose proof (forLoop_length c tasks) as Hlen.
    set (l := forLoop c tasks) in *. split.
    + apply Forall_app. split.
      * eapply Forall_impl; [exact IHs|]. intros x Hx. cbv beta in *. lia.
      * rewrite Forall_singleton. exact Hclock.
    + intros i p Hp. destruct (decide (i < length tasks)) as [Hin|Hout].
      * rewrite lookup_app_l in Hp by lia.
        destruct (IHp i p Hp) as (task & Htask & Hrest).
        exists task. split; [|exact Hrest]. rewrite lookup_app_l by lia. exact Htask.
      * rewrite lookup_app_r in Hp by lia. rewrite Hlen in Hp.
        assert (Hlt : i < length (tasks ++ [t])).
        { destruct (i - length tasks) as [|k] eqn:Hk; simpl in Hp; [|destruct k; discriminate].
          rewrite length_app. simpl. lia. }
        rewrite length_app in Hlt. simpl in Hlt.
        replace (i - length tasks) with 0 in Hp by lia. simpl in Hp.
        injection Hp as <-. exists t. split.
        -- rewrite lookup_app_r by lia. replace (i - length tasks) with 0 by lia. reflexivity.
        -- simpl. repeat split. lia.
Qed.

(** X7. For tasks whose promises all fulfil and whatever the limit, every
    task is started exactly once and in input order: the pool creates one
    promise per task, the [i]-th for task [i], each started no earlier
    than the one before it and settling [duration] instants after its
    start. *)
Theorem pool_starts_every_task_once (tasks : list (Task T)) (c : Z) :
  let ps := created (promisePool tasks c) in
  length ps = length tasks /\
  (forall i p, ps !! i = Some p ->
     exists task, tasks !! i = Some task /\
       index p = i /\ result p = value task /\
       settlesAt p = startedAt p + duration task) /\
  (forall i j p q, i <= j -> ps !! i = Some p -> ps !! j = Some q ->
     startedAt p <= startedAt q).
Proof.
  unfold promisePool. simpl. split; [apply forLoop_length|]. split.
  - apply forLoop_started.
  - induction tasks as [|t tasks IH] using rev_ind.
    + intros i j p q _ Hp. discriminate.
    + rewrite forLoop_snoc, iteration_promises.
      pose proof (proj1 (forLoop_started c tasks)) as Hstarted.
      pose proof (forLoop_length c tasks) as Hlen.
      set (l := forLoop c tasks) in *.
      intros i j p q Hij Hp Hq.
      destruct (decide (j < length (promises l))) as [Hj|Hj].
      * rewrite lookup_app_l in Hp by lia. rewrite lookup_app_l in Hq by lia. eauto.
      * rewrite lookup_app_r in Hq by lia.
        destruct (j - length (promises l)) as [|k]; simpl in Hq; [|destruct k; discriminate].
        injection Hq as <-. simpl.
        destruct (decide (i < length (promises l))) as [Hi|Hi].
        -- rewrite lookup_app_l in Hp by lia.
           rewrite Forall_forall in Hstarted. apply Hstarted.
           apply list_elem_of_lookup. eauto.
        -- rewrite lookup_app_r in Hp by lia.
           destruct (i - length (promises l)) as [|k]; simpl in Hp; [|destruct k; discriminate].
           injection Hp as <-. simpl. lia.
Qed.

(** X8. What the returned array can hold. A slot that holds a value holds
    the result of the task at that index and nothing else, and the array
    is never longer than the task list; the slots of the first
    [concurrency - 1] tasks always hold their results, because those
    promises stay in [executing] until [Promise.all]. *)
Theorem pool_slots (tasks : list (Task T)) (c : Z) :
  let run := promisePool tasks c in
  length (results run) <= length tasks /\
  (forall i v, results run !! i = Some (Some v) ->
     exists task, tasks !! i = Some task /\ value task = v) /\
  (forall i task, (Z.of_nat i < c - 1)%Z -> tasks !! i = Some task ->
     results run !! i = Some (Some (value task))).
Proof.
  intros run. subst run. unfold promisePool. simpl.
  set (l := forLoop c tasks).
  set (t := allResumes (clock l) (executing l)).
  destruct (forLoop_indices c tasks) as [Hindex _].
  pose proof (forLoop_length c tasks) as Hlen. fold l in Hindex, Hlen.
  rewrite <- Hlen in Hindex.
  destruct (resultsAt_slots (promises l) t Hindex) as [Hle Hslots].
  destruct (forLoop_started c tasks) as [_ Hps]. fold l in Hps.
  split; [lia|]. split.
  - intros i v Hv. apply Hslots in Hv as (p & Hp & <- & _).
    destruct (Hps i p Hp) as (task & Htask & _ & Hr & _). eauto.
  - intros i task Hi Htask.
    assert (Hlt : i < length (promises l)) by (rewrite Hlen; eapply lookup_lt_Some; eauto).
    destruct (lookup_lt_is_Some_2 (promises l) i Hlt) as [p Hp].
    destruct (Hps i p Hp) as (task' & Htask' & _ & Hr & _).
    assert (task' = task) by congruence. subst task'.
    apply Hslots. exists p. split; [exact Hp|]. split; [exact Hr|].
    assert (Hex : p ∈ executing l).
    { unfold l. rewrite forLoop_executing. fold l.
      apply list_elem_of_lookup. exists i. rewrite lookup_take_lt by lia. exact Hp. }
    unfold t, allResumes. pose proof (settles_before_latest p _ Hex). lia.
Qed.

End PoolExtras.

Section PoolExtraRuns.
Import PromisePool.
Local Open Scope nat_scope.

Lemma pool_without_limit_witness :
  results (promisePool quickThenSlow 5) = [Some "A"; Some "B"; Some "C"; Some "D"].
Proof.
  apply (pool_without_limit quickThenSlow 5). simpl. lia.
Defined.

Lemma pool_slots_witness :
  results (promisePool quickThenSlow 3) !! 1 = Some (Some "B").
Proof.
  apply (proj2 (proj2 (pool_slots quickThenSlow 3)) 1 (mkTask 10 "B")).
  - lia.
  - reflexivity.
Defined.

Lemma pool_starts_every_task_once_witness :
  exists task, quickThenSlow !! 2 = Some task /\
    index (mkPromise 2 1 21 "C") = 2 /\ result (mkPromise 2 1 21 "C") = value task /\
    settlesAt (mkPromise 2 1 21 "C") = startedAt (mkPromise 2 1 21 "C") + duration task.
Proof.
  apply (proj1 (proj2 (pool_starts_every_task_once quickThenSlow 2)) 2 (mkPromise 2 1 21 "C")).
  reflexivity.
Defined.

End PoolExtraRuns.

(* ===================================================================== *)
(** * retry                                                               *)
(* ===================================================================== *)

Section RetryFacts.
Import Retry.
Context {T : Type}.
Variable fn : nat -> outcome T.
Variables maxR baseD maxD : Z.

Abbreviation backoffs := (schedule baseD maxD).

Lemma backoffs_snoc_front a n :
  backoff baseD maxD (Z.of_nat a) :: backoffs (Datatypes.S a) n = backoffs a (Datatypes.S n).
Proof. reflexivity. Qed.

Lemma attempts_after_failure remaining attempt lastError log e :
  fn (invocations log) = Thrown e ->
  attempts fn maxR baseD maxD (Datatypes.S remaining) attempt lastError log =
    attempts fn maxR baseD maxD remaining (attempt + 1) (Some e)
      (mkRetryLog (Datatypes.S (invocations log))
         (if attempt <? maxR
          then sleeps log ++ [backoff baseD maxD attempt] else sleeps log)).
Proof. intros H. simpl. rewrite H. reflexivity. Qed.

(** [j] failures and then a success, all within the budget. *)
Lemma attempts_success (j : nat) : forall remaining a lastError sl v,
  (j < remaining)%nat ->
  (forall i, (a <= i < a + j)%nat -> is_thrown (fn i) = true) ->
  fn (a + j)%nat = Returned v ->
  Z.of_nat (a + j) <= maxR ->
  attempts fn maxR baseD maxD remaining (Z.of_nat a) lastError (mkRetryLog a sl) =
    (Fulfilled v, mkRetryLog (Datatypes.S (a + j)) (sl ++ backoffs a j)).
Proof.
  induction j as [|j IH]; intros remaining a lastError sl v Hrem Hfail Hok Hbudget;
    (destruct remaining as [|remaining]; [lia|]); simpl.
  - rewrite Nat.add_0_r in *. rewrite Hok. unfold schedule. simpl. rewrite app_nil_r. reflexivity.
  - assert (Hthrown : is_thrown (fn a) = true) by (apply Hfail; lia).
    destruct (fn a) as [?|e]; [discriminate|].
    destruct (Z.ltb_spec (Z.of_nat a) maxR); [|lia].
    replace (Z.of_nat a + 1) with (Z.of_nat (Datatypes.S a)) by lia.
    rewrite (IH remaining (Datatypes.S a) (Some e) _ v).
    + f_equal. f_equal; [lia|]. rewrite <- app_assoc. reflexivity.
    + lia.
    + intros i Hi. apply Hfail. lia.
    + replace (Datatypes.S a + j)%nat with (a + Datatypes.S j)%nat by lia. exact Hok.
    + lia.
Qed.

(** Every remaining attempt fails, the last one being attempt [maxR]. *)
Lemma attempts_exhausted : forall remaining a lastError sl e,
  (forall i, (a <= i <= a + remaining)%nat -> is_thrown (fn i) = true) ->
  fn (a + remaining)%nat = Thrown e ->
  Z.of_nat (a + remaining) = maxR ->
  attempts fn maxR baseD maxD (Datatypes.S remaining) (Z.of_nat a) lastError (mkRetryLog a sl) =
    (Rejected (Some e),
     mkRetryLog (Datatypes.S (a + remaining)) (sl ++ backoffs a remaining)).
Proof.
  induction remaining as [|remaining IH]; intros a lastError sl e Hfail Hlast Hbudget.
  - rewrite Nat.add_0_r in *. simpl. rewrite Hlast.
    destruct (Z.ltb_spec (Z.of_nat a) maxR); [lia|].
    unfold schedule. simpl. rewrite app_nil_r. reflexivity.
  - assert (Hthrown : is_thrown (fn a) = true) by (apply Hfail; lia).
    destruct (fn a) as [?|e0] eqn:Hfn; [discriminate|].
    rewrite (attempts_after_failure _ _ _ _ e0) by exact Hfn. cbn [invocations sleeps].
    destruct (Z.ltb_spec (Z.of_nat a) maxR); [|lia].
    replace (Z.of_nat a + 1) with (Z.of_nat (Datatypes.S a)) by lia.
    rewrite (IH (Datatypes.S a) (Some e0) _ e).
    + f_equal. f_equal; [lia|]. rewrite <- app_assoc. reflexivity.
    + intros i Hi. apply Hfail. lia.
    + replace (Datatypes.S a + remaining)%nat with (a + Datatypes.S remaining)%nat by lia.
      exact Hlast.
    + lia.
Qed.

(** What any run stays within. *)
Lemma attempts_bounds : forall remaining a lastError log,
  Z.of_nat a + Z.of_nat remaining = maxR + 1 ->
  let log' := snd (attempts fn maxR baseD maxD remaining (Z.of_nat a) lastError log) in
  (invocations log' <= invocations log + remaining)%nat /\
  exists extra,
    sleeps log' = sleeps log ++ extra /\
    (length extra <= remaining - 1)%nat /\
    Forall (fun delay => delay <= maxD) extra /\
    (0 <= baseD -> 0 <= maxD -> Forall (fun delay => 0 <= delay) extra).
Proof.
  induction remaining as [|remaining IH]; intros a lastError log Hbudget; simpl.
  - split; [lia|]. exists []. rewrite app_nil_r. repeat split; auto.
  - destruct (fn (invocations log)) as [v|e]; simpl.
    + split; [lia|]. exists []. rewrite app_nil_r. repeat split; auto. simpl. lia.
    + replace (Z.of_nat a + 1) with (Z.of_nat (Datatypes.S a)) by lia.
      match goal with |- context [attempts _ _ _ _ _ _ _ ?l] => 
        specialize (IH (Datatypes.S a) (Some e) l ltac:(lia)) end.
      simpl in IH. destruct IH as (Hinv & extra & Hsl & Hlen & Hmax & Hmin).
      split; [lia|].
      destruct (Z.ltb_spec (Z.of_nat a) maxR) as [Hlt|Hge].
      * exists (backoff baseD maxD (Z.of_nat a) :: extra). rewrite Hsl, <- app_assoc.
        split; [reflexivity|]. split; [simpl; lia|]. split.
        -- constructor; [unfold backoff; lia|exact Hmax].
        -- intros Hb Hm. constructor; [|auto].
           unfold backoff. apply Z.min_glb; [|exact Hm].
           apply Z.mul_nonneg_nonneg; [exact Hb|]. apply Z.pow_nonneg. lia.
      * exists extra. split; [exact Hsl|].
        assert (remaining = 0%nat) by lia. subst remaining.
        simpl in *. repeat split; auto; lia.
Qed.

End RetryFacts.

Section RetryTheorems.
Import Retry.
Context {T : Type}.

(** X11. When [fn] rejects [k] times and then fulfils, with [k] at most
    [maxRetries], [retry] fulfils with that value after exactly [k + 1]
    invocations, having slept [min(baseDelay * 2^i, maxDelay)] after the
    [i]-th failure and not after the success. *)
Theorem retry_returns_first_success (fn : nat -> outcome T) (options : RetryOptions)
    (k : nat) (v : T) :
  (forall i, (i < k)%nat -> is_thrown (fn i) = true) ->
  fn k = Returned v ->
  Z.of_nat k <= maxRetries options ->
  retry fn options =
    (Fulfilled v,
     mkRetryLog (Datatypes.S k)
       (schedule (baseDelay options) (default 30000 (maxDelay options)) 0 k)).
Proof.
  intros Hfail Hok Hk. unfold retry.
  apply (attempts_success fn (maxRetries options) (baseDelay options)
           (default 30000 (maxDelay options)) k _ 0%nat None [] v).
  - lia.
  - intros i Hi. apply Hfail. lia.
  - exact Hok.
  - exact Hk.
Qed.

(** X12. When every attempt rejects, [retry] gives up after [maxRetries + 1]
    invocations and rejects with the reason of the last one; it has slept
    after each failure but the last. With a negative [maxRetries] the
    loop body never runs: [fn] is not invoked at all and the promise
    rejects with [undefined]. *)
Theorem retry_gives_up (fn : nat -> outcome T) (options : RetryOptions) :
  (forall (n : nat) (e : JsError),
      maxRetries options = Z.of_nat n ->
      (forall i, (i <= n)%nat -> is_thrown (fn i) = true) ->
      fn n = Thrown e ->
      retry fn options =
        (Rejected (Some e),
         mkRetryLog (Datatypes.S n)
           (schedule (baseDelay options) (default 30000 (maxDelay options)) 0 n))) /\
  (maxRetries options < 0 -> retry fn options = (Rejected None, mkRetryLog 0 [])).
Proof.
  split.
  - intros n e Hn Hfail Hlast. unfold retry. rewrite Hn.
    replace (Z.to_nat (Z.of_nat n + 1)) with (Datatypes.S n) by lia.
    apply (attempts_exhausted fn (Z.of_nat n) (baseDelay options)
             (default 30000 (maxDelay options)) n 0%nat None [] e).
    + intros i Hi. apply Hfail. lia.
    + exact Hlast.
    + lia.
  - intros Hneg. unfold retry.
    replace (Z.to_nat (maxRetries options + 1)) with 0%nat by lia. reflexivity.
Qed.

(** X13. Whatever [fn] does, [retry] invokes it at most [maxRetries + 1]
    times and sleeps at most [maxRetries] times, never longer than
    [maxDelay] at a time; with a non-negative [baseDelay] and [maxDelay]
    no delay is negative. *)
Theorem retry_is_bounded (fn : nat -> outcome T) (options : RetryOptions) :
  let log := snd (retry fn options) in
  let cap := default 30000 (maxDelay options) in
  (invocations log <= Z.to_nat (maxRetries options + 1))%nat /\
  (length (sleeps log) <= Z.to_nat (maxRetries options))%nat /\
  Forall (fun delay => delay <= cap) (sleeps log) /\
  (0 <= baseDelay options -> 0 <= cap -> Forall (fun delay => 0 <= delay) (sleeps log)).
Proof.
  intros log cap. subst log. unfold retry. fold cap.
  destruct (Z.ltb_spec (maxRetries options) 0) as [Hneg|Hpos].
  - replace (Z.to_nat (maxRetries options + 1)) with 0%nat by lia. simpl.
    repeat split; auto. lia.
  - pose proof (attempts_bounds fn (maxRetries options) (baseDelay options) cap
                  (Z.to_nat (maxRetries options + 1)) 0%nat None (mkRetryLog 0 [])) as H.
    change (Z.of_nat 0) with 0 in H.
    destruct H as (Hinv & extra & Hsl & Hlen & Hmax & Hmin); [lia|].
    rewrite Hsl. simpl in *. repeat split; auto; lia.
Qed.

(** [fetchWithRetry] with its defaults (three retries unless told
    otherwise, one second of base delay, thirty seconds of cap): when
    every attempt rejects, the waits double from one second and are
    thirty seconds from the sixth on. *)
Theorem fetchWithRetry_schedule (fetchFn : nat -> outcome T) (retries : option Z)
    (n : nat) (e : JsError) :
  default 3 retries = Z.of_nat n ->
  (forall i, (i <= n)%nat -> is_thrown (fetchFn i) = true) ->
  fetchFn n = Thrown e ->
  fetchWithRetry fetchFn retries =
    (Rejected (Some e),
     mkRetryLog (Datatypes.S n)
       ((fun i => if (i <? 5)%nat then 1000 * 2 ^ Z.of_nat i else 30000) <$> seq 0 n)).
Proof.
  intros Hn Hfail Hlast. unfold fetchWithRetry, retry.
  cbn [maxRetries baseDelay maxDelay]. rewrite Hn.
  replace (Z.to_nat (Z.of_nat n + 1)) with (Datatypes.S n) by lia.
  etransitivity.
  { apply (attempts_exhausted fetchFn (Z.of_nat n) 1000 30000 n 0%nat None [] e);
      [intros i Hi; apply Hfail; lia|exact Hlast|lia]. }
  simpl. do 2 f_equal. unfold schedule. apply list_fmap_ext. intros _ i _.
  unfold backoff. destruct (Nat.ltb_spec i 5) as [Hlt|Hge].
  - do 5 (destruct i as [|i]; [reflexivity|]). lia.
  - assert (2 ^ 5 <= 2 ^ Z.of_nat i) by (apply Z.pow_le_mono_r; lia).
    change (2 ^ 5) with 32 in *. lia.
Qed.

End RetryTheorems.

(* ===================================================================== *)
(** * flatten, groupBy and memoize                                        *)
(* ===================================================================== *)

Section FlattenFacts.
Import Flatten.
Context {A : Type}.

(** Induction over an array and all the arrays inside it. *)
Lemma Nested_nested_ind (P : Nested A -> Prop) :
  (forall a, P (Item a)) ->
  (forall items, Forall P items -> P (Arr items)) ->
  forall item, P item.
Proof.
  intros HItem HArr.
  fix IH 1. intros [a|items].
  - apply HItem.
  - apply HArr. induction items as [|item items IHitems]; constructor.
    + apply IH.
    + exact IHitems.
Qed.

Lemma allLeaves_app (xs ys : list (Nested A)) :
  allLeaves (xs ++ ys) = allLeaves xs ++ allLeaves ys.
Proof. unfold allLeaves. rewrite List.map_app, List.concat_app. reflexivity. Qed.

Lemma allLeaves_concat (xss : list (list (Nested A))) :
  allLeaves (List.concat xss) = List.concat (List.map allLeaves xss).
Proof.
  induction xss as [|xs xss IH]; [reflexivity|].
  simpl. rewrite allLeaves_app, IH. reflexivity.
Qed.

Lemma concat_map_ext_Forall {B C : Type} (f g : B -> list C) (l : list B) :
  Forall (fun x => f x = g x) l ->
  List.concat (List.map f l) = List.concat (List.map g l).
Proof. induction 1 as [|x l Hx _ IH]; simpl; [reflexivity|]. rewrite Hx, IH. reflexivity. Qed.

Lemma pushed_leaves (item : Nested A) :
  forall depth, allLeaves (pushed depth item) = leaves item.
Proof.
  induction item as [a|items IH] using Nested_nested_ind; intros depth; simpl.
  - reflexivity.
  - destruct (isZero (minusOne depth)); [reflexivity|].
    rewrite allLeaves_concat, List.map_map.
    apply concat_map_ext_Forall.
    eapply Forall_impl; [exact IH|]. simpl. auto.
Qed.

Lemma bottomless_minusOne depth :
  bottomless depth -> bottomless (minusOne depth) /\ isZero depth = false.
Proof.
  destruct depth as [d|]; simpl; [|auto].
  intros Hd. split; [lia|]. apply Z.eqb_neq. lia.
Qed.

Lemma pushed_bottomless (item : Nested A) :
  forall depth, bottomless depth -> pushed depth item = Item <$> leaves item.
Proof.
  induction item as [a|items IH] using Nested_nested_ind; intros depth Hdepth; simpl.
  - reflexivity.
  - destruct (bottomless_minusOne depth Hdepth) as [Hnext _].
    destruct (bottomless_minusOne _ Hnext) as [_ ->].
    induction IH as [|item items Hitem _ IHitems]; simpl; [reflexivity|].
    rewrite fmap_app, Hitem, IHitems by exact Hnext. reflexivity.
Qed.

Lemma concat_map_concat {B C : Type} (f : B -> list C) (xss : list (list B)) :
  List.concat (List.map f (List.concat xss)) =
  List.concat (List.map (fun xs => List.concat (List.map f xs)) xss).
Proof.
  induction xss as [|xs xss IH]; [reflexivity|].
  simpl. rewrite List.map_app, List.concat_app, IH. reflexivity.
Qed.

Lemma flatten_succ (arr : list (Nested A)) (d : Z) :
  0 <= d ->
  flatten arr (Finite (d + 1)) = flatten (List.concat (List.map unwrap arr)) (Finite d).
Proof.
  intros Hd. unfold flatten. simpl.
  destruct (Z.eqb_spec (d + 1) 0) as [|_]; [lia|].
  destruct (Z.eqb_spec d 0) as [->|Hd0].
  - apply concat_map_ext_Forall, Forall_forall. intros [a|items] _; reflexivity.
  - rewrite concat_map_concat, List.map_map.
    apply concat_map_ext_Forall, Forall_forall. intros [a|items] _; simpl.
    + reflexivity.
    + replace (d + 1 - 1) with d by lia.
      destruct (Z.eqb_spec d 0); [contradiction|]. reflexivity.
Qed.

Lemma flatten_add_nat (n : nat) : forall (arr : list (Nested A)) (d2 : Z),
  0 <= d2 ->
  flatten (flatten arr (Finite (Z.of_nat n))) (Finite d2) = flatten arr (Finite (Z.of_nat n + d2)).
Proof.
  induction n as [|n IH]; intros arr d2 Hd2.
  - reflexivity.
  - replace (Z.of_nat (Datatypes.S n)) with (Z.of_nat n + 1) by lia.
    rewrite flatten_succ by lia. rewrite IH by exact Hd2.
    replace (Z.of_nat n + 1 + d2) with (Z.of_nat n + d2 + 1) by lia.
    rewrite flatten_succ by lia. reflexivity.
Qed.

(** X14. [flatten] never loses, invents or reorders a value: whatever the
    depth, the values that are not arrays, read left to right through all
    levels, are the same before and after. *)
Theorem flatten_keeps_the_values (arr : list (Nested A)) (depth : Depth) :
  allLeaves (flatten arr depth) = allLeaves arr.
Proof.
  unfold flatten. destruct (isZero depth); [reflexivity|].
  rewrite allLeaves_concat, List.map_map.
  apply concat_map_ext_Forall, Forall_forall. intros item _. apply pushed_leaves.
Qed.

(** X15. With the default depth [Infinity], and with any negative depth
    (which never counts down to 0), the result has no array left in it:
    it is the list of all values in order. *)
Theorem flatten_to_the_bottom (arr : list (Nested A)) (depth : Depth) :
  bottomless depth ->
  flatten arr depth = Item <$> allLeaves arr /\
  forallb isItem (flatten arr depth) = true.
Proof.
  intros Hdepth.
  assert (Hflat : flatten arr depth = Item <$> allLeaves arr).
  { unfold flatten. destruct (bottomless_minusOne depth Hdepth) as [_ ->].
    unfold allLeaves. induction arr as [|item arr IH]; simpl; [reflexivity|].
    rewrite fmap_app, IH, pushed_bottomless by exact Hdepth. reflexivity. }
  split; [exact Hflat|]. rewrite Hflat. clear Hflat.
  induction (allLeaves arr) as [|a l IH]; [reflexivity|].
  rewrite fmap_cons. simpl. exact IH.
Qed.

(** X16. Depths add up: flattening by [d1] levels and then by [d2] levels is
    flattening by [d1 + d2] levels, for depths from 0 up. *)
Theorem flatten_depths_add (arr : list (Nested A)) (d1 d2 : Z) :
  0 <= d1 -> 0 <= d2 ->
  flatten (flatten arr (Finite d1)) (Finite d2) = flatten arr (Finite (d1 + d2)).
Proof.
  intros Hd1 Hd2. rewrite <- (Z2Nat.id d1) by exact Hd1. apply flatten_add_nat, Hd2.
Qed.

End FlattenFacts.

Section GroupByFacts.
Import GroupBy.
Context {T : Type}.
Variable keyFn : T -> Z.

Lemma step_lookup (acc : gmap Z (list T)) (item : T) (k : Z) :
  step keyFn acc item !! k =
    if decide (k = keyFn item) then Some (default [] (acc !! k) ++ [item])
    else acc !! k.
Proof.
  unfold step. destruct (decide (k = keyFn item)) as [->|Hne].
  - destruct (acc !! keyFn item) as [group|] eqn:Hacc.
    + rewrite lookup_alter. destruct (decide (keyFn item = keyFn item)); [|congruence].
      rewrite Hacc. reflexivity.
    + rewrite lookup_alter. destruct (decide (keyFn item = keyFn item)); [|congruence].
      rewrite lookup_insert_eq. reflexivity.
  - destruct (acc !! keyFn item) as [group|] eqn:Hacc.
    + rewrite lookup_alter. destruct (decide (keyFn item = k)); [congruence|]. reflexivity.
    + rewrite lookup_alter. destruct (decide (keyFn item = k)); [congruence|].
      rewrite lookup_insert_ne by congruence. reflexivity.
Qed.

(** X17. [groupBy] partitions the array by key, keeping the order: the group
    stored under [k] is the sub-list of the items whose key is [k], in
    their order in the array, and a key that no item has is absent, so
    no group is empty. *)
Theorem groupBy_partitions (array : list T) (k : Z) :
  groupBy array keyFn !! k =
    match filter (fun item => keyFn item = k) array with
    | [] => None
    | group => Some group
    end.
Proof.
  unfold groupBy. induction array as [|item array IH] using rev_ind; [reflexivity|].
  rewrite foldl_app. simpl. rewrite step_lookup, IH, filter_app.
  destruct (decide (k = keyFn item)) as [->|Hne].
  - rewrite filter_cons_True by reflexivity. rewrite filter_nil.
    destruct (filter _ array); reflexivity.
  - rewrite filter_cons_False by congruence. rewrite filter_nil, app_nil_r. reflexivity.
Qed.

End GroupByFacts.

Section MemoizeFacts.
Import Memoize.
Context {Args R : Type}.
Variable JSON_stringify : Args -> outcome string.
Variable fn : Args -> outcome R.

Lemma memoized_sound args (m : Memo Args R) :
  cache_sound JSON_stringify fn m -> cache_sound JSON_stringify fn (snd (memoized JSON_stringify fn args m)).
Proof.
  intros Hm. unfold memoized, bind, settled, gets, apply_fn, modify, ret.
  destruct (JSON_stringify args) as [key|e] eqn:Hkey; simpl; [|exact Hm].
  destruct (cache m !! key) as [r|] eqn:Hhit; simpl; [exact Hm|].
  destruct (fn args) as [r|e] eqn:Hfn; simpl.
  - intros key' r' Hlook. simpl in *. destruct (decide (key' = key)) as [->|Hne].
    + rewrite lookup_insert_eq in Hlook. injection Hlook as <-.
      exists args. split; [|auto]. apply elem_of_app. right. constructor.
    + rewrite lookup_insert_ne in Hlook by congruence.
      destruct (Hm key' r' Hlook) as (a & Ha & Hrest).
      exists a. split; [|exact Hrest]. apply elem_of_app. left. exact Ha.
  - intros key' r' Hlook. simpl in *. destruct (Hm key' r' Hlook) as (a & Ha & Hrest).
    exists a. split; [|exact Hrest]. apply elem_of_app. left. exact Ha.
Qed.

Lemma calls_sound (calls : list Args) :
  cache_sound JSON_stringify fn (foldl (fun m args => snd (memoized JSON_stringify fn args m)) fresh calls).
Proof.
  induction calls as [|args calls IH] using rev_ind.
  - intros key r Hlook. discriminate.
  - rewrite foldl_app. simpl. apply memoized_sound, IH.
Qed.

(** A call never changes or drops an entry of the cache. *)
Lemma memoized_keeps_entries args (m : Memo Args R) key r :
  cache m !! key = Some r ->
  cache (snd (memoized JSON_stringify fn args m)) !! key = Some r.
Proof.
  intros Hentry. unfold memoized, bind, settled, gets, apply_fn, modify, ret.
  destruct (JSON_stringify args) as [key'|e] eqn:Hkey; simpl; [|exact Hentry].
  destruct (cache m !! key') as [r'|] eqn:Hhit; simpl; [exact Hentry|].
  destruct (fn args) as [r'|e]; simpl; [|exact Hentry].
  rewrite lookup_insert_ne; [exact Hentry|]. intros ->. congruence.
Qed.

Lemma calls_keep_entries (calls : list Args) : forall (m : Memo Args R) key r,
  cache m !! key = Some r ->
  cache (foldl (fun m args => snd (memoized JSON_stringify fn args m)) m calls) !! key = Some r.
Proof.
  induction calls as [|args calls IH]; intros m key r Hentry; simpl; [exact Hentry|].
  apply IH, memoized_keeps_entries, Hentry.
Qed.

(** X18. Once a call has returned, every later call whose arguments serialise
    to the same key gets that result back without [fn] being applied
    again and without a change to the closure, whatever calls were made
    in between and whatever [fn] would return for the new arguments. If
    the first call was a miss, it applied [fn] once, to its own
    arguments. *)
Theorem memoized_hit_skips_fn (a b : Args) (between : list Args) (m : Memo Args R) key r :
  JSON_stringify a = Returned key ->
  JSON_stringify b = Returned key ->
  fst (memoized JSON_stringify fn a m) = Returned r ->
  let m1 := snd (memoized JSON_stringify fn a m) in
  let m2 := foldl (fun m args => snd (memoized JSON_stringify fn args m)) m1 between in
  (cache m !! key = None -> fn a = Returned r /\ applied m1 = applied m ++ [a]) /\
  memoized JSON_stringify fn b m2 = (Returned r, m2).
Proof.
  intros Ha Hb Hr m1 m2.
  assert (Hfirst : cache m1 !! key = Some r /\
                   (cache m !! key = None -> fn a = Returned r /\ applied m1 = applied m ++ [a])).
  { subst m1. revert Hr. unfold memoized, bind, settled, gets, apply_fn, modify, ret.
    rewrite Ha. simpl.
    destruct (cache m !! key) as [r'|] eqn:Hhit; simpl.
    - intros [= ->]. split; [exact Hhit|discriminate].
    - destruct (fn a) as [r'|e]; simpl; [|discriminate].
      intros [= ->]. rewrite lookup_insert_eq. auto. }
  destruct Hfirst as [Hentry Hmiss]. split; [exact Hmiss|].
  pose proof (calls_keep_entries between m1 key r Hentry) as Hkept. fold m2 in Hkept.
  unfold memoized, bind, settled, gets, ret. rewrite Hb. simpl. rewrite Hkept. reflexivity.
Qed.

(** X19. When [JSON.stringify] tells any two argument lists apart, the
    memoized function is indistinguishable from [fn] by its results:
    after any series of calls, a call returns what [fn] returns for its
    arguments. A call of [fn] that throws is not cached. *)
Theorem memoized_agrees_with_fn (calls : list Args) (args : Args) key :
  (forall a b k, JSON_stringify a = Returned k -> JSON_stringify b = Returned k -> a = b) ->
  JSON_stringify args = Returned key ->
  let m := foldl (fun m a => snd (memoized JSON_stringify fn a m)) fresh calls in
  fst (memoized JSON_stringify fn args m) = fn args /\
  (is_thrown (fn args) = true -> cache (snd (memoized JSON_stringify fn args m)) = cache m).
Proof.
  intros Hinj Hkey m. pose proof (calls_sound calls) as Hsound. fold m in Hsound.
  unfold memoized, bind, settled, gets, apply_fn, modify, ret. rewrite Hkey. simpl.
  destruct (cache m !! key) as [r|] eqn:Hhit; simpl.
  - destruct (Hsound key r Hhit) as (a & _ & Ha & Hfn).
    rewrite (Hinj args a key Hkey Ha). split; [auto|]. intros _. reflexivity.
  - destruct (fn args) as [r|e]; simpl; [split; [reflexivity|discriminate]|auto].
Qed.

End MemoizeFacts.

(* ===================================================================== *)
(** * debounce and throttle                                               *)
(* ===================================================================== *)

Section TimerFacts.
Import Timers.
Context {Args : Type}.

Lemma consecutive_cons (P : Z -> Z -> Prop) (c0 c1 : Z * Args) rest :
  consecutive P (c0 :: c1 :: rest) ->
  P (fst c0) (fst c1) /\ consecutive P (c1 :: rest).
Proof.
  intros H. split.
  - destruct c0 as [t0 a0], c1 as [t1 a1]. apply (H 0%nat t0 a0 t1 a1); reflexivity.
  - intros i t a t' a' Hi Hi'. apply (H (Datatypes.S i) t a t' a'); assumption.
Qed.


End TimerFacts.

Section DebounceFacts.
Import Timers.
Context {Args : Type}.
Variable delay : Z.
Hypothesis delay_nonneg : 0 <= delay.

Abbreviation feed := (foldl (fun d call => debounced delay (fst call) (snd call) d)).

(** A burst: while each call comes before the timer of the previous one
    is due, nothing fires, and the timer of the last call is the one
    that does. *)
Lemma burst_run (calls : list (Z * Args)) : forall t0 a0 inv until,
  consecutive (fun t t' => t <= t' < t + delay) ((t0, a0) :: calls) ->
  (forall t a, last ((t0, a0) :: calls) = Some (t, a) -> t + delay <= until) ->
  elapse until (feed (mkDebounced (Some (t0 + delay, a0)) inv) calls) =
    mkDebounced None
      (inv ++ match last ((t0, a0) :: calls) with
              | Some (t, a) => [(t + delay, a)]
              | None => []
              end).
Proof.
  induction calls as [|[t1 a1] calls IH]; intros t0 a0 inv until Hgaps Huntil.
  - simpl. unfold elapse. simpl.
    destruct (Z.leb_spec (t0 + delay) until) as [_|Hlt]; [reflexivity|].
    specialize (Huntil t0 a0 eq_refl). lia.
  - apply consecutive_cons in Hgaps as [Hgap Hrest]. simpl in Hgap.
    cbn [foldl fst snd]. unfold debounced at 2. unfold elapse at 2. cbn [timer invoked].
    destruct (Z.leb_spec (t0 + delay) t1) as [Hdue|_]; [lia|]. cbn [invoked].
    rewrite Z.max_l by exact delay_nonneg.
    rewrite (IH t1 a1 inv until Hrest).
    + rewrite (last_cons_cons (t0, a0)). reflexivity.
    + intros t a Hlast. apply (Huntil t a). rewrite last_cons_cons. exact Hlast.
Qed.

(** Calls far apart: when each call comes after the timer of the
    previous one was due, every timer fires. *)
Lemma spread_run (calls : list (Z * Args)) : forall t0 a0 inv until,
  consecutive (fun t t' => t + delay < t') ((t0, a0) :: calls) ->
  (forall t a, last ((t0, a0) :: calls) = Some (t, a) -> t + delay <= until) ->
  elapse until (feed (mkDebounced (Some (t0 + delay, a0)) inv) calls) =
    mkDebounced None
      (inv ++ ((fun call => (fst call + delay, snd call)) <$> ((t0, a0) :: calls))).
Proof.
  induction calls as [|[t1 a1] calls IH]; intros t0 a0 inv until Hgaps Huntil.
  - simpl. unfold elapse. simpl.
    destruct (Z.leb_spec (t0 + delay) until) as [_|Hlt]; [reflexivity|].
    specialize (Huntil t0 a0 eq_refl). lia.
  - apply consecutive_cons in Hgaps as [Hgap Hrest]. simpl in Hgap.
    cbn [foldl fst snd]. unfold debounced at 2. unfold elapse at 2. cbn [timer invoked].
    destruct (Z.leb_spec (t0 + delay) t1) as [_|Hnot]; [|lia]. cbn [invoked].
    rewrite Z.max_l by exact delay_nonneg.
    rewrite (IH t1 a1 _ until Hrest).
    + rewrite <- app_assoc. reflexivity.
    + intros t a Hlast. apply (Huntil t a). rewrite last_cons_cons. exact Hlast.
Qed.

End DebounceFacts.

Section DebounceTheorems.
Import Timers.
Context {Args : Type}.

(** X20. A burst of calls, each made before [delay] has passed since the one
    before it, leads to exactly one call of [func]: with the arguments of
    the last call of the burst, [delay] after it. *)
Theorem debounce_burst_calls_once (delay : Z) (calls : list (Z * Args)) (until t : Z) (a : Args) :
  0 <= delay ->
  consecutive (fun t t' => t <= t' < t + delay) calls ->
  last calls = Some (t, a) ->
  t + delay <= until ->
  invoked (debounceRun delay calls until) = [(t + delay, a)].
Proof.
  intros Hdelay Hgaps Hlast Huntil. unfold debounceRun.
  destruct calls as [|[t0 a0] calls]; [discriminate|].
  cbn [foldl fst snd]. unfold debounced at 2. unfold elapse at 2. cbn [timer invoked].
  rewrite Z.max_l by exact Hdelay.
  rewrite (burst_run delay Hdelay calls t0 a0 [] until Hgaps).
  - rewrite Hlast. reflexivity.
  - intros t' a' Hlast'. rewrite Hlast in Hlast'. injection Hlast' as <- <-. exact Huntil.
Qed.

(** X21. Calls that are each made more than [delay] after the one before
    them are all passed on: [func] is called once per call, with its
    arguments, [delay] after it. *)
Theorem debounce_passes_separate_calls (delay : Z) (calls : list (Z * Args)) (until : Z) :
  0 <= delay ->
  consecutive (fun t t' => t + delay < t') calls ->
  (forall t a, last calls = Some (t, a) -> t + delay <= until) ->
  invoked (debounceRun delay calls until) =
    (fun call => (fst call + delay, snd call)) <$> calls.
Proof.
  intros Hdelay Hgaps Huntil. unfold debounceRun.
  destruct calls as [|[t0 a0] calls]; [reflexivity|].
  cbn [foldl fst snd]. unfold debounced at 2. unfold elapse at 2. cbn [timer invoked].
  rewrite Z.max_l by exact Hdelay.
  rewrite (spread_run delay Hdelay calls t0 a0 [] until Hgaps Huntil). reflexivity.
Qed.

End DebounceTheorems.

Section ThrottleFacts.
Import Timers.
Context {Args R : Type}.
Variable func : Args -> outcome R.
Variable limit : Z.
Hypothesis limit_nonneg : 0 <= limit.




End ThrottleFacts.

Section ThrottleTheorems.
Import Timers.
Context {Args R : Type}.


(** A call made while the throttle is closed does not apply [func] to
    its arguments: it returns the result of the last call that did, which
    was computed from other arguments. *)
Lemma throttled_call_returns_last_result (func : Args -> outcome R) (limit : Z)
    (t1 t2 : Z) (a b : Args) (r : R) :
  func a = Returned r ->
  t1 <= t2 < t1 + limit ->
  throttleRun func limit [(t1, a); (t2, b)] idle =
    ([Returned (Some r); Returned (Some r)],
     mkThrottled true (t1 + limit) (Some r) [(t1, a)] [(t1, a)]).
Proof.
  intros Hfunc Ht. cbn [throttleRun]. unfold throttled at 1. unfold release at 1.
  cbn [idle inThrottle andb]. rewrite Hfunc. cbn [executed applied app].
  rewrite Z.max_l by lia.
  unfold throttled. unfold release. cbn [inThrottle releaseAt andb].
  destruct (Z.leb_spec (t1 + limit) t2); [lia|]. reflexivity.
Qed.

End ThrottleTheorems.

(* ===================================================================== *)
(** * useAsync and usePrevious                                            *)
(* ===================================================================== *)

Section UseAsyncFacts.
Import UseAsync.
Context {T : Type}.




End UseAsyncFacts.

Section UsePreviousFacts.
Import UsePrevious.
Context {T : Type} `{EqDecision T}.

Lemma renders_from (values : list T) : forall (i : Instance T),
  current i = lastValue i ->
  renders values i = take (length values) (current i :: (Some <$> values)).
Proof.
  induction values as [|v values IH]; intros i Hi; [reflexivity|].
  cbn [renders]. unfold render.
  destruct (decide (lastValue i = Some v)) as [Hsame|Hnew].
  - rewrite (IH i Hi). rewrite Hi, Hsame. reflexivity.
  - rewrite (IH (mkInstance (Some v) (Some v)) eq_refl). reflexivity.
Qed.

(** X24. Over any series of renders the hook returns, at each render, the
    value of the render before it, and [undefined] at the first one;
    this holds also when the value does not change between renders and
    the effect is skipped. *)
Theorem usePrevious_is_one_render_behind (values : list T) :
  renders values unmounted = take (length values) (None :: (Some <$> values)) /\
  forall n v, values !! n = Some v ->
    is_Some (values !! Datatypes.S n) ->
    renders values unmounted !! Datatypes.S n = Some (Some v).
Proof.
  assert (Hall : renders values unmounted = take (length values) (None :: (Some <$> values)))
    by (apply (renders_from values unmounted); reflexivity).
  split; [exact Hall|].
  intros n v Hn [v' Hn']. rewrite Hall.
  rewrite lookup_take_lt by (apply lookup_lt_Some in Hn'; exact Hn').
  simpl. rewrite list_lookup_fmap, Hn. reflexivity.
Qed.

End UsePreviousFacts.

(* ===================================================================== *)
(** * The mock API, and the paginated list on top of it                   *)
(* ===================================================================== *)

Section ApiFacts.
Import Api.
Variable USERS : list User.
Variable POSTS : list Post.

(** [slice] between two indices in order, both from 0 up. *)
Lemma slice_window {A : Type} (arr : list A) (start stop : Z) :
  0 <= start <= stop ->
  slice arr start stop = take (Z.to_nat (stop - start)) (drop (Z.to_nat start) arr).
Proof.
  intros Hrange. unfold slice, relativeIndex.
  destruct (Z.ltb_spec start 0); [lia|]. destruct (Z.ltb_spec stop 0); [lia|].
  set (len := Z.of_nat (length arr)).
  destruct (Z.le_gt_cases len start) as [Hout|Hin].
  - rewrite (Z.min_r start len) by lia.
    rewrite !drop_ge by (unfold len in *; lia). rewrite !take_nil. reflexivity.
  - rewrite (Z.min_l start len) by lia.
    destruct (Z.le_gt_cases stop len) as [Hs|Hs].
    + rewrite (Z.min_l stop len) by lia. reflexivity.
    + rewrite (Z.min_r stop len) by lia.
      rewrite !take_ge; [reflexivity| |]; rewrite length_drop; unfold len in *; lia.
Qed.

Lemma pageOf_window (pageSize page : Z) :
  1 <= page -> 0 <= pageSize ->
  pageOf POSTS pageSize page =
    take (Z.to_nat pageSize) (drop (Z.to_nat ((page - 1) * pageSize)) POSTS).
Proof.
  intros Hpage Hsize. unfold pageOf, fetchPosts. simpl.
  rewrite slice_window by nia. f_equal. lia.
Qed.

(** X25. The pages tile the post list: for a page size from 0 up, the pages
    1 to [n] one after the other are the first [n * pageSize] posts, each
    page has at most [pageSize] posts, and page [n] reports [hasMore]
    exactly when posts remain after it. *)
Theorem fetchPosts_pages_tile (pageSize : Z) (n : nat) :
  0 <= pageSize ->
  List.concat ((fun i => pageOf POSTS pageSize (Z.of_nat i)) <$> seq 1 n)
    = take (n * Z.to_nat pageSize) POSTS /\
  (forall page, 1 <= page -> Z.of_nat (length (pageOf POSTS pageSize page)) <= pageSize) /\
  (forall page, 1 <= page ->
     exists data,
       fetchPosts POSTS (Some page) (Some pageSize) false =
         Resolved (Pagination.mkResponse data page pageSize (Z.of_nat (length POSTS))
                     (page * pageSize <? Z.of_nat (length POSTS)))).
Proof.
  intros Hsize. split; [|split].
  - induction n as [|n IH]; [reflexivity|].
    rewrite seq_S, fmap_app, List.concat_app, IH. simpl.
    rewrite app_nil_r, pageOf_window by lia.
    replace (Z.to_nat ((Z.of_nat (Datatypes.S n) - 1) * pageSize))
      with (n * Z.to_nat pageSize)%nat by nia.
    rewrite take_take_drop. f_equal. lia.
  - intros page Hpage. rewrite pageOf_window by lia. rewrite length_take. lia.
  - intros page Hpage. unfold fetchPosts. simpl. eexists. do 3 f_equal. lia.
Qed.

(** X26. [login] accepts exactly the e-mails that contain an [@] together
    with the password [password123]. Every other input is rejected: with
    status 400 when the e-mail has no [@] or, failing that, the password
    is shorter than 6 characters, and with status 401 otherwise. *)
Theorem login_accepts (now : Z) (email password : string) :
  ((exists session, login USERS now email password = Resolved session) <->
   includes atSign email = true /\ password = "password123") /\
  (forall e, login USERS now email password = Rejected e ->
     (status e = 400 <->
        includes atSign email = false \/ (String.length password < 6)%nat) /\
     (status e = 401 <->
        includes atSign email = true /\ (6 <= String.length password)%nat /\
        password <> "password123") /\
     code e = "API_ERROR").
Proof.
  assert (Hempty : email = "" -> includes atSign email = false) by (intros ->; reflexivity).
  assert (Hlen : password = "password123" -> String.length password = 11%nat)
    by (intros ->; reflexivity).
  unfold login.
  destruct (bool_decide (email = "")) eqn:He;
    [apply bool_decide_eq_true_1 in He; specialize (Hempty He)
    |clear Hempty; apply bool_decide_eq_false_1 in He];
  destruct (includes atSign email) eqn:Hat; try discriminate; cbn [negb orb];
  try (destruct (Z.ltb_spec (Z.of_nat (String.length password)) 6) as [Hshort|Hlong]);
  try (destruct (bool_decide (password = "password123")) eqn:Hpw;
       [apply bool_decide_eq_true_1 in Hpw|apply bool_decide_eq_false_1 in Hpw];
       cbn [negb]);
  (split;
   [split;
    [intros [session Hs]; try discriminate; auto
    |intros [Hin Hp]; try discriminate; try contradiction; eauto;
     specialize (Hlen Hp); lia]
   |intros e Heq; try discriminate; injection Heq as <-; cbn [status code createError default from_option id];
    intuition (try discriminate; try lia; try congruence)]).
Qed.

(** [fetchPostById] resolves with the first post that has the id, and
    rejects with status 404 and a message naming the id exactly when no
    post has it. *)
Theorem fetchPostById_finds_the_post (id : string) :
  (forall post, fetchPostById POSTS id = Resolved post ->
     p_id post = id /\ post ∈ POSTS) /\
  ((exists post, post ∈ POSTS /\ p_id post = id) ->
     exists post, fetchPostById POSTS id = Resolved post) /\
  ((forall post, post ∈ POSTS -> p_id post <> id) ->
     fetchPostById POSTS id =
       Rejected (mkApiError ("Post " +:+ id +:+ " not found") "API_ERROR" 404)).
Proof.
  unfold fetchPostById.
  destruct (List.find _ POSTS) as [post|] eqn:Hfind.
  - apply find_some in Hfind as [Hin Hid]. apply bool_decide_eq_true_1 in Hid.
    apply list_elem_of_In in Hin. split; [|split].
    + intros post' [= <-]. auto.
    + intros _. eauto.
    + intros Hnone. exfalso. apply (Hnone post Hin Hid).
  - split; [|split].
    + intros post H. discriminate.
    + intros (post & Hin & Hid). exfalso.
      apply list_elem_of_In in Hin.
      pose proof (find_none _ _ Hfind post Hin) as Hno. simpl in Hno.
      apply bool_decide_eq_false_1 in Hno. contradiction.
    + intros _. reflexivity.
Qed.

End ApiFacts.

Section PaginatedListFacts.
Import Pagination PaginatedList.
Variable POSTS : list Api.Post.

Lemma fetchFn_page (k : nat) :
  fetchFn POSTS false (Z.of_nat (Datatypes.S k)) =
    Returned (mkResponse (take 20 (drop (20 * k) POSTS)) (Z.of_nat (Datatypes.S k)) 20
                (Z.of_nat (length POSTS))
                (20 * Z.of_nat (Datatypes.S k) <? Z.of_nat (length POSTS))).
Proof.
  unfold fetchFn, Api.fetchPosts. simpl Api.asOutcome. cbn [default from_option id].
  unfold Api.asOutcome. f_equal. rewrite (slice_window POSTS) by lia.
  f_equal; [|f_equal; lia].
  replace (Z.to_nat ((Z.of_nat (Datatypes.S k) - 1) * 20 + 20 - (Z.of_nat (Datatypes.S k) - 1) * 20))
    with 20%nat by lia.
  replace (Z.to_nat ((Z.of_nat (Datatypes.S k) - 1) * 20)) with (20 * k)%nat by lia.
  reflexivity.
Qed.

Lemma mounted_loaded : pagesLoaded POSTS 1 (mounted POSTS false).
Proof.
  unfold pagesLoaded, mounted, mount, loadPage_call, initial. simpl isLoadingRef. cbv iota.
  unfold loadPage_resume. cbn [pageNum isRefresh].
  pose proof (fetchFn_page 0) as Hpage. change (Z.of_nat 1) with 1 in Hpage.
  rewrite Hpage. reflexivity.
Qed.

Lemma endReached_loaded (k : nat) (h : Hook Api.Post) :
  pagesLoaded POSTS k h ->
  (20 * Z.of_nat k < Z.of_nat (length POSTS) /\
   pagesLoaded POSTS (Datatypes.S k) (endReached POSTS false h)) \/
  (Z.of_nat (length POSTS) <= 20 * Z.of_nat k /\ endReached POSTS false h = h).
Proof.
  intros ->. unfold endReached. cbn [isLoading hasMore negb andb].
  destruct (Z.ltb_spec (20 * Z.of_nat k) (Z.of_nat (length POSTS))) as [Hmore|Hdone];
    [left|right; auto].
  split; [exact Hmore|].
  unfold loadMore, render. cbn [seen_isLoading seen_hasMore seen_page isLoading hasMore page negb andb].
  destruct (Z.ltb_spec (20 * Z.of_nat k) (Z.of_nat (length POSTS))); [|lia].
  unfold loadPage_call. cbn [isLoadingRef]. cbv iota.
  unfold loadPage_resume. cbn [pageNum isRefresh].
  replace (Z.of_nat k + 1) with (Z.of_nat (Datatypes.S k)) by lia.
  rewrite (fetchFn_page k). cbn -[Z.of_nat Z.mul Z.ltb take drop seq].
  unfold pagesLoaded. f_equal.
  - rewrite take_take_drop. f_equal. lia.
  - rewrite seq_S, fmap_app. reflexivity.
Qed.

Lemma scrolled_loaded (n : nat) : forall (k : nat) (h : Hook Api.Post),
  pagesLoaded POSTS k h ->
  exists k', (k <= k' <= k + n)%nat /\ pagesLoaded POSTS k' (scrolled POSTS n h) /\
             (k' = (k + n)%nat \/ Z.of_nat (length POSTS) <= 20 * Z.of_nat k').
Proof.
  induction n as [|n IH]; intros k h Hk.
  - exists k. simpl. split; [lia|]. split; [exact Hk|]. left. lia.
  - cbn [scrolled]. destruct (endReached_loaded k h Hk) as [[Hmore Hnext]|[Hdone Hsame]].
    + destruct (IH (Datatypes.S k) _ Hnext) as (k' & Hrange & Hk' & Hend).
      exists k'. split; [lia|]. split; [exact Hk'|]. destruct Hend; [left; lia|right; lia].
    + rewrite Hsame. destruct (IH k h Hk) as (k' & Hrange & Hk' & Hend).
      exists k'. split; [lia|]. split; [exact Hk'|]. right.
      destruct Hend; lia.
Qed.

(** X27. The paginated list screen on the mock API. After the first load and
    [n] times reaching the end of the list, every fetch succeeding, the
    list shows exactly the first [20 * (n + 1)] posts, in their order;
    the pages fetched are 1, 2, ... up to the current page without gap or
    repeat; and once [hasMore] is false the list shows every post and
    reaching the end fetches nothing more. *)
Theorem paginated_list_shows_a_prefix (n : nat) :
  let h := scrolled POSTS n (mounted POSTS false) in
  data h = take (20 * (n + 1)) POSTS /\
  fetched h = Z.of_nat <$> seq 1 (Z.to_nat (page h)) /\
  1 <= page h <= Z.of_nat n + 1 /\
  (hasMore h = false -> data h = POSTS /\ endReached POSTS false h = h).
Proof.
  intros h. subst h.
  destruct (scrolled_loaded n 1 _ mounted_loaded) as (k & Hrange & Hk & Hend).
  rewrite Hk. cbn [data fetched page hasMore]. split; [|split; [|split]].
  - destruct Hend as [->|Hall].
    + f_equal. lia.
    + rewrite !take_ge by lia. reflexivity.
  - rewrite Nat2Z.id. reflexivity.
  - lia.
  - intros Hno. apply Z.ltb_ge in Hno. split; [apply take_ge; lia|].
    rewrite <- Hk.
    destruct (endReached_loaded k _ Hk) as [[Hmore _]|[_ Hsame]]; [lia|exact Hsame].
Qed.

End PaginatedListFacts.

Section PaginationRetryFacts.
Import Pagination.
Context {T : Type}.

(** A failed load of the next page does not advance the hook: with the
    hook at rest and more to load, [loadMore] requests page [page + 1];
    if that fetch rejects, [page] and [data] are as before and the next
    [loadMore] requests the same page again, clearing the error; if it
    resolves, [page] has advanced by one. *)
Lemma failed_page_is_requested_again (h : Hook T) (err : JsError)
    (response : PaginatedResponse T) :
  isLoadingRef h = false -> isLoading h = false -> hasMore h = true ->
  let next := mkPending (page h + 1) false in
  let h1 := fst (loadMore (render h) h) in
  snd (loadMore (render h) h) = Some next /\
  (let failed := loadPage_resume next (Thrown err) h1 in
   page failed = page h /\ data failed = data h /\
   snd (loadMore (render failed) failed) = Some next /\
   error (fst (loadMore (render failed) failed)) = None) /\
  (let loaded := loadPage_resume next (Returned response) h1 in
   page loaded = page h + 1 /\ data loaded = data h ++ r_data response).
Proof.
  intros Href Hload Hmore next h1. subst next h1.
  destruct h as [d p l r m e ref f]. simpl in Href, Hload, Hmore. subst ref l m.
  unfold loadMore, render, loadPage_call. simpl.
  destruct err; simpl; repeat split; eauto.
Qed.

End PaginationRetryFacts.

(* ===================================================================== *)
(** * The products thunk with its reducers                                *)
(* ===================================================================== *)

Section SliceInvariant.
Import ProductsSlice.
Context {Product : Type}.
Variable id : Product -> Z.

(** X28. The reducers keep the list free of repeated ids as long as no
    fetched page repeats an id within itself: a first page or a refresh
    replaces the list by the page, and a later page contributes only ids
    that are not listed yet. A failed fetch and the start of a fetch do
    not touch the list. *)
Theorem items_stay_duplicate_free arg (payload : list Product) (state : ProductsState Product) :
  NoDup (id <$> items state) ->
  NoDup (id <$> payload) ->
  NoDup (id <$> items (fulfilled id arg payload (pending arg state))) /\
  (forall reason, NoDup (id <$> items (rejected reason (pending arg state)))).
Proof.
  intros Hitems Hpayload.
  assert (Hpending : items (pending arg state) = items state).
  { unfold pending. destruct ((arg_page arg =? 0) && _); [reflexivity|].
    destruct (arg_page arg =? 0); reflexivity. }
  split; [|intros reason; simpl; rewrite Hpending; exact Hitems].
  unfold fulfilled. rewrite Hpending.
  destruct ((arg_page arg =? 0) && (0 <? Z.of_nat (length (items state)))
            || (arg_page arg =? 0) && (Z.of_nat (length (items state)) =? 0)); simpl.
  - exact Hpayload.
  - rewrite fmap_app. apply NoDup_app. split; [exact Hitems|]. split.
    + intros x Hx Hnew. apply list_elem_of_fmap in Hnew as (item & -> & Hin).
      rewrite newItems_by_membership in Hin. apply list_elem_of_filter in Hin as [Hnot _].
      contradiction.
    + rewrite newItems_by_membership.
      assert (Hsub : id <$> filter (fun item => id item ∉ id <$> items state) payload
                     `sublist_of` id <$> payload)
        by apply fmap_sublist, sublist_filter.
      exact (sublist_NoDup _ _ Hpayload Hsub).
Qed.

End SliceInvariant.

(** Closes the four parts of the thunk's contract once the result of the
    run is known. *)
Ltac settle_thunk Hrun :=
  simpl; try (rewrite Hrun; simpl);
  split; [reflexivity|];
  split; [let H := fresh in
          intros ? H; first [discriminate H | injection H as <-; reflexivity]|];
  split; [let H := fresh in let H' := fresh in
          intros H H'; first [discriminate H | discriminate H' | reflexivity]|];
  let H := fresh in
  intros ? H;
  first [discriminate H
        | injection H as <-; split; [reflexivity|]; split; [auto|reflexivity]].

Section ThunkFacts.
Import Cache ProductsSlice ProductsThunk.
Context {S Product : Type}.
Variable AsyncStorage : AsyncStorageImpl S.
Variable JSON : ListCodec Product.
Variable PRODUCTS : string.
Variable id : Product -> Z.

Lemma saveToStorage_returns key value (d : Device S) :
  fst (saveToStorage AsyncStorage JSON key value d) = Returned tt.
Proof.
  unfold saveToStorage, try_catch, bind, settled, onDisk, console_warn, modify.
  destruct (JSON_stringifyList JSON value) as [text|e]; simpl; [|reflexivity].
  destruct (setItem AsyncStorage key text (disk d)) as [[[]|e] s']; reflexivity.
Qed.

Lemma loadFromStorage_returns key (d : Device S) :
  is_thrown (fst (loadFromStorage AsyncStorage JSON key d)) = false.
Proof.
  unfold loadFromStorage, try_catch, bind, settled, onDisk, console_warn, modify, ret.
  destruct (getItem AsyncStorage key (disk d)) as [[[text|]|e] s']; simpl; try reflexivity.
  destruct (decide (text = "")); simpl; [reflexivity|].
  destruct (JSON_parseList JSON text); reflexivity.
Qed.

(** X29. Whatever the request, the abort signal, the storage backend and the
    codec do, the payload creator of [fetchProducts] ends without
    throwing. A request that succeeds yields the server's products even
    if saving them fails. A request that fails yields the cached list (on
    the first page, when one can be read and the request was not
    aborted) or else one of exactly two rejection texts. The text of a
    rejection that was not aborted is the error the store shows; after an
    abort the store shows the reducer's fallback text, since the
    [rejected] action then carries no payload, and [Request cancelled]
    does not reach the store. For a page other than the first the
    storage is not touched at all. *)
Theorem thunk_always_settles arg (request : outcome (list Product)) (aborted : bool)
    (d : Device S) (state : ProductsState Product) :
  let run := fetchProducts AsyncStorage JSON PRODUCTS arg request aborted d in
  (exists result, fst run = Returned result /\
     (forall data, request = Returned data -> result = Payload data) /\
     (is_thrown request = true -> aborted = true ->
        result = RejectWithValue "Request cancelled") /\
     (forall value, result = RejectWithValue value ->
        is_thrown request = true /\
        (value = "Request cancelled" \/ value = "Failed to fetch products") /\
        ProductsSlice.error (dispatched id arg aborted result state)
          = Some (if aborted then "Error fetching products" else value))) /\
  (arg_page arg <> 0 -> snd run = d).
Proof.
  intros run. subst run. unfold fetchProducts, try_catch, bind, settled, ret. split.
  - destruct request as [data|e].
    + assert (Hrun : exists d',
                (let '(r, w') :=
                   (if arg_page arg =? 0
                    then saveToStorage AsyncStorage JSON PRODUCTS data
                    else fun w => (Returned tt, w)) d in
                 match r with
                 | Returned _ => (Returned (Payload data), w')
                 | Thrown e => (Thrown e, w')
                 end) = (Returned (Payload data), d')).
      { destruct (arg_page arg =? 0); [|exists d; reflexivity].
        pose proof (saveToStorage_returns PRODUCTS data d) as Hsave.
        destruct (saveToStorage AsyncStorage JSON PRODUCTS data d) as [r d'].
        simpl in Hsave. subst r. exists d'. reflexivity. }
      destruct Hrun as [d' Hrun]. exists (Payload data). settle_thunk Hrun.
    + destruct aborted; [exists (RejectWithValue "Request cancelled"); settle_thunk I|].
      destruct (arg_page arg =? 0);
        [|exists (RejectWithValue "Failed to fetch products"); settle_thunk I].
      pose proof (loadFromStorage_returns PRODUCTS d) as Hload.
      destruct (loadFromStorage AsyncStorage JSON PRODUCTS d) as [[[cached|]|e'] d'];
        simpl in Hload; try discriminate.
      * exists (Payload cached). settle_thunk I.
      * exists (RejectWithValue "Failed to fetch products"). settle_thunk I.
  - intros Hpage. destruct (Z.eqb_spec (arg_page arg) 0) as [|_]; [contradiction|].
    destruct request; [reflexivity|]. destruct aborted; reflexivity.
Qed.

(** The list screen pages through the catalogue one window at a time.
    When its [loadMore] dispatches, the request starts at item
    [page * limit]; a fulfilled
    request advances [page] by one, so the next window starts where this
    one ended; a rejected one leaves [page] and the items as they were,
    and the next [loadMore] asks for the same window again. *)
Lemma load_more_walks_the_windows (state : ProductsState Product) arg
    (products : list Product) (value : string) :
  screenLoadMore false state = Some arg ->
  skip arg = page state * limit state /\
  page (dispatched id arg false (Payload products) state) = page state + 1 /\
  (let failed := dispatched id arg false (RejectWithValue value) state in
   page failed = page state /\ items failed = items state /\
   screenLoadMore false failed = Some arg).
Proof.
  destruct state as [its l r e p lim more f q c lo hi].
  unfold screenLoadMore. simpl. intros Hmore.
  destruct l; [discriminate|]. destruct f; [discriminate|]. destruct more; [|discriminate].
  simpl in Hmore. injection Hmore as <-.
  unfold skip, dispatched, fulfilled, rejected, pending, screenLoadMore. simpl.
  destruct (Z.eqb_spec p 0) as [->|Hp]; simpl.
  - destruct (0 <? Z.of_nat (length its)) eqn:Hlen; simpl; rewrite ?Hlen; simpl.
    + auto.
    + destruct (Z.of_nat (length its) =? 0); simpl; auto.
  - auto.
Qed.

End ThunkFacts.

Section ThunkOffline.
Import Cache ProductsSlice ProductsThunk.
Context {Product : Type}.
Variable JSON : ListCodec Product.
Variable PRODUCTS : string.

(** X30. The offline fallback closes the loop over the storage: the products
    of a successful first-page request are saved, and a later first-page
    request that fails without having been aborted is fulfilled with
    those products; the same failure on a later page is rejected. *)
Theorem offline_first_page_falls_back (limit : Z) (products : list Product) (text : string)
    (laterPage : Z) (d : Device (gmap string string)) :
  JSON_stringifyList JSON products = Returned text ->
  text <> "" ->
  JSON_parseList JSON text = Returned (Some products) ->
  laterPage <> 0 ->
  let online := fetchProducts memoryStorage JSON PRODUCTS (mkArgs 0 limit)
                  (Returned products) false d in
  forall e,
    fst online = Returned (Payload products) /\
    fst (fetchProducts memoryStorage JSON PRODUCTS (mkArgs 0 limit) (Thrown e) false
           (snd online)) = Returned (Payload products) /\
    fst (fetchProducts memoryStorage JSON PRODUCTS (mkArgs laterPage limit) (Thrown e) false
           (snd online)) = Returned (RejectWithValue "Failed to fetch products").
Proof.
  intros Hprint Hne Hparse Hlater online e.
  assert (Honline : online = (Returned (Payload products),
                              mkDevice (<[PRODUCTS := text]> (disk d)) (warnings d))).
  { subst online. unfold fetchProducts, saveToStorage, try_catch, bind, settled, onDisk, ret.
    simpl. rewrite Hprint. reflexivity. }
  rewrite Honline. simpl. split; [reflexivity|]. split.
  - unfold fetchProducts, loadFromStorage, try_catch, bind, settled, onDisk, ret. simpl.
    rewrite lookup_insert_eq. destruct (decide (text = "")); [contradiction|].
    rewrite Hparse. reflexivity.
  - unfold fetchProducts. simpl.
    destruct (Z.eqb_spec laterPage 0); [contradiction|]. reflexivity.
Qed.

End ThunkOffline.

(* ===================================================================== *)
(** * Runs of the utilities, the hooks, the API and the thunk             *)
(* ===================================================================== *)

Section RetryRuns.
Import Retry.

Lemma retry_returns_first_success_witness :
  retry flaky (mkRetryOptions 3 1000 None) = (Fulfilled "ok", mkRetryLog 3 [1000; 2000]).
Proof.
  apply (retry_returns_first_success flaky (mkRetryOptions 3 1000 None) 2 "ok").
  - intros [|[|i]] Hi; [reflexivity|reflexivity|lia].
  - reflexivity.
  - simpl. lia.
Defined.

Lemma retry_gives_up_witness :
  retry down (mkRetryOptions 3 1000 (Some 3000)) =
    (Rejected (Some (mkError (Some "down 3"))), mkRetryLog 4 [1000; 2000; 3000]).
Proof.
  apply (proj1 (retry_gives_up down (mkRetryOptions 3 1000 (Some 3000))) 3%nat
           (mkError (Some "down 3"))).
  - reflexivity.
  - intros i Hi. reflexivity.
  - reflexivity.
Defined.

Lemma retry_is_bounded_witness :
  Forall (fun delay => 0 <= delay) (sleeps (snd (retry flaky (mkRetryOptions 5 250 None)))).
Proof.
  apply (proj2 (proj2 (proj2 (retry_is_bounded flaky (mkRetryOptions 5 250 None))))).
  - simpl. lia.
  - simpl. lia.
Defined.

Lemma fetchWithRetry_schedule_witness :
  fetchWithRetry down None =
    (Rejected (Some (mkError (Some "down 3"))), mkRetryLog 4 [1000; 2000; 4000]).
Proof.
  apply (fetchWithRetry_schedule down None 3 (mkError (Some "down 3"))).
  - reflexivity.
  - intros i Hi. reflexivity.
  - reflexivity.
Defined.

End RetryRuns.

Section FlattenRuns.
Import Flatten.

Lemma flatten_to_the_bottom_witness :
  flatten nestedDemo Infinity = Item <$> allLeaves nestedDemo /\
  forallb isItem (flatten nestedDemo Infinity) = true.
Proof.
  apply (flatten_to_the_bottom nestedDemo Infinity). exact I.
Defined.

Lemma flatten_depths_add_witness :
  flatten (flatten nestedDemo (Finite 1)) (Finite 1) = flatten nestedDemo (Finite (1 + 1)).
Proof.
  apply (flatten_depths_add nestedDemo 1 1); lia.
Defined.

End FlattenRuns.

Section MemoizeRuns.
Import Memoize.

Lemma memoized_hit_skips_fn_witness :
  let m1 := snd (memoized flagKey flagFn true fresh) in
  let m2 := foldl (fun m args => snd (memoized flagKey flagFn args m)) m1 [false; true] in
  memoized flagKey flagFn true m2 = (Returned 1, m2).
Proof.
  apply (proj2 (memoized_hit_skips_fn flagKey flagFn true true [false; true] fresh "[true]" 1
                  eq_refl eq_refl eq_refl)).
Defined.

Lemma memoized_agrees_with_fn_witness :
  let m := foldl (fun m a => snd (memoized flagKey flagFn a m)) fresh [true; false; true] in
  fst (memoized flagKey flagFn false m) = flagFn false.
Proof.
  apply (memoized_agrees_with_fn flagKey flagFn [true; false; true] false "[false]").
  - intros [] [] k Ha Hb; unfold flagKey in Ha, Hb; injection Ha as <-;
      first [discriminate Hb | reflexivity].
  - reflexivity.
Defined.

End MemoizeRuns.

Section TimerRuns.
Import Timers.

Lemma debounce_burst_calls_once_witness :
  invoked (debounceRun 300 [(0, "r"); (100, "re"); (250, "rea")] 1000) = [(550, "rea")].
Proof.
  apply (debounce_burst_calls_once 300 [(0, "r"); (100, "re"); (250, "rea")] 1000 250 "rea").
  - lia.
  - intros [|[|[|i]]] t a t' a' H H'; simpl in H, H'; try discriminate;
      injection H as <- _; injection H' as <- _; lia.
  - reflexivity.
  - lia.
Defined.

Lemma debounce_passes_separate_calls_witness :
  invoked (debounceRun 300 [(0, "a"); (400, "b")] 1000) = [(300, "a"); (700, "b")].
Proof.
  apply (debounce_passes_separate_calls 300 [(0, "a"); (400, "b")] 1000).
  - lia.
  - intros [|[|i]] t a t' a' H H'; simpl in H, H'; try discriminate;
      injection H as <- _; injection H' as <- _; lia.
  - intros t a H. simpl in H. injection H as <- _. lia.
Defined.


(** [func] throws at instants 0 and 1: the throttle stays open and
    [func] is applied both times, and again at 2, where it returns. *)
Example throttle_reapplies_after_throw :
  let s := snd (throttleRun nonEmpty 100 [(0, ""); (1, ""); (2, "a"); (3, "b")] idle) in
  applied s = [(0, ""); (1, ""); (2, "a")] /\ executed s = [(2, "a")].
Proof. vm_compute. split; reflexivity. Qed.

Lemma throttled_call_returns_last_result_witness :
  throttleRun (fun a : string => Returned a) 100 [(0, "a"); (50, "b")] idle =
    ([Returned (Some "a"); Returned (Some "a")],
     mkThrottled true (0 + 100) (Some "a") [(0, "a")] [(0, "a")]).
Proof.
  apply (throttled_call_returns_last_result (fun a : string => Returned a) 100 0 50 "a" "b" "a").
  - reflexivity.
  - lia.
Defined.

End TimerRuns.

Section HookRuns.


Lemma usePrevious_is_one_render_behind_witness :
  UsePrevious.renders [1; 1; 2] UsePrevious.unmounted !! 2%nat = Some (Some 1).
Proof.
  apply (proj2 (usePrevious_is_one_render_behind [1; 1; 2]) 1%nat 1).
  - reflexivity.
  - exists 2. reflexivity.
Defined.

End HookRuns.

Section ApiRuns.
Import Api.

Lemma fetchPosts_pages_tile_witness :
  List.concat ((fun i => pageOf demoPosts 20 (Z.of_nat i)) <$> seq 1 3)
    = take (3 * Z.to_nat 20) demoPosts.
Proof.
  apply (proj1 (fetchPosts_pages_tile demoPosts 20 3 ltac:(lia))).
Defined.

Lemma login_accepts_witness :
  exists session, login [] 1700000000000 "ada@example.com" "password123" = Resolved session.
Proof.
  apply (proj1 (login_accepts [] 1700000000000 "ada@example.com" "password123")).
  split; reflexivity.
Defined.

Lemma fetchPostById_finds_the_post_witness :
  exists post, fetchPostById demoPosts "7" = Resolved post.
Proof.
  apply (proj1 (proj2 (fetchPostById_finds_the_post demoPosts "7"))).
  exists (mkPost "7" "1" "Post" "" None 0 0 "").
  split; [|reflexivity].
  apply list_elem_of_lookup. exists 6%nat. reflexivity.
Defined.

Lemma paginated_list_shows_a_prefix_witness :
  let h := PaginatedList.scrolled demoPosts 2 (PaginatedList.mounted demoPosts false) in
  Pagination.data h = demoPosts /\ PaginatedList.endReached demoPosts false h = h.
Proof.
  apply (proj2 (proj2 (proj2 (paginated_list_shows_a_prefix demoPosts 2)))).
  reflexivity.
Defined.

Lemma failed_page_is_requested_again_witness :
  snd (Pagination.loadMore (Pagination.render Pagination.afterPageOne) Pagination.afterPageOne)
    = Some (Pagination.mkPending (Pagination.page Pagination.afterPageOne + 1) false).
Proof.
  apply (failed_page_is_requested_again Pagination.afterPageOne (mkError None)
           Pagination.pageTwo); reflexivity.
Defined.

End ApiRuns.

Section ProductsRuns.
Import Cache ProductsSlice ProductsThunk.

Lemma items_stay_duplicate_free_witness :
  NoDup (item_id <$> items (fulfilled item_id (mkArgs 1 2)
                              [mkItem 2 "two"; mkItem 3 "three"]
                              (pending (mkArgs 1 2) twoListed))).
Proof.
  apply (proj1 (items_stay_duplicate_free item_id (mkArgs 1 2)
                  [mkItem 2 "two"; mkItem 3 "three"] twoListed
                  ltac:(apply (bool_decide_unpack _); vm_compute; reflexivity)
                  ltac:(apply (bool_decide_unpack _); vm_compute; reflexivity))).
Defined.

Lemma thunk_always_settles_witness :
  snd (fetchProducts memoryStorage itemsCodec "@products" (mkArgs 2 10)
         (Thrown (mkError (Some "Network Error"))) false blankDevice) = blankDevice.
Proof.
  apply (proj2 (thunk_always_settles memoryStorage itemsCodec "@products" item_id (mkArgs 2 10)
                  (Thrown (mkError (Some "Network Error"))) false blankDevice twoListed)).
  simpl. lia.
Defined.

(** A refresh is aborted: the payload creator ends with
    [Request cancelled], and the store shows the fallback text. *)
Example aborted_refresh_shows_the_fallback :
  let arg := mkArgs 0 2 in
  let result := fst (fetchProducts memoryStorage itemsCodec "@products" arg
                       (Thrown (mkError (Some "canceled"))) true blankDevice) in
  result = Returned (RejectWithValue "Request cancelled") /\
  ProductsSlice.error (dispatched item_id arg true (RejectWithValue "Request cancelled")
                         twoListed)
    = Some "Error fetching products".
Proof. vm_compute. split; reflexivity. Qed.

Lemma load_more_walks_the_windows_witness :
  skip (mkArgs 1 2) = page twoListed * limit twoListed.
Proof.
  apply (load_more_walks_the_windows item_id twoListed (mkArgs 1 2) [] "Failed to fetch products").
  reflexivity.
Defined.

Lemma offline_first_page_falls_back_witness :
  let products := [mkItem 1 "one"; mkItem 2 "two"] in
  let e := mkError (Some "Network Error") in
  let online := fetchProducts memoryStorage itemsCodec "@products" (mkArgs 0 2)
                  (Returned products) false blankDevice in
  fst online = Returned (Payload products) /\
  fst (fetchProducts memoryStorage itemsCodec "@products" (mkArgs 0 2) (Thrown e) false
         (snd online)) = Returned (Payload products) /\
  fst (fetchProducts memoryStorage itemsCodec "@products" (mkArgs 1 2) (Thrown e) false
         (snd online)) = Returned (RejectWithValue "Failed to fetch products").
Proof.
  refine (offline_first_page_falls_back itemsCodec "@products" 2
            [mkItem 1 "one"; mkItem 2 "two"] "1:one;2:two;]" 1 blankDevice
            _ _ _ _ (mkError (Some "Network Error"))).
  - reflexivity.
  - discriminate.
  - reflexivity.
  - lia.
Defined.

End ProductsRuns.
